(** * ArcadeHub: the persistence layer of [db.py]

    A shallow embedding of the database helper module: the four tables
    (users, friends, leaderboard, achievements) as lists of rows in rowid
    order, every helper of [db.py] as a function on the world it reads and
    writes, and the SQL statements by their meaning on those lists.

    Modelling conventions.
    - The store is the one left by [init_db]: the [status] and [reason]
      columns exist, so the [sqlite3.OperationalError] handlers of the
      friend helpers are never entered.
    - Rows are never deleted, so the [id INTEGER PRIMARY KEY] of a row is
      its position in the table; it is only ever read by existence checks
      and is not stored.
    - [datetime.utcnow().isoformat()] reads the clock.  The world carries
      an oracle [utc] and the number [ticks] of reads made so far: the
      n-th read returns [utc n].  Nothing is assumed about the oracle.
    - Usernames, game names and keys are strings; scores are Python
      integers ([Z]); values are assumed to stay within what SQLite stores.
    - SQLite keeps INTEGER sums in 64 bits: [SUM] fails with "integer
      overflow" once a running sum leaves that range, and the helper that
      issued the query raises [sqlite3.OperationalError].  Helpers that run
      a [SUM] therefore yield an [outcome].  A [LIMIT] of 0 ends a query
      before any row is visited.
    - A [SELECT] without an aggregate lists rows in rowid order before its
      [ORDER BY] is applied; [ORDER BY] is a stable sort.  SQL leaves the
      order of ties and of groups open: no theorem below depends on it. *)

From Stdlib Require Import ZArith List String Ascii Bool Lia.
From Stdlib Require Import Sorting.Sorted Sorting.Permutation DecimalString.
Import ListNotations.

Local Open Scope string_scope.
Local Open Scope list_scope.
Local Open Scope Z_scope.

(** ** Data model *)

Definition timestamp := string.

(** The two values ever written to [friends.status]. *)
Inductive status : Type := pending | accepted.

Definition status_eqb (a b : status) : bool :=
  match a, b with
  | pending, pending | accepted, accepted => true
  | _, _ => false
  end.

Record user_row : Type := mk_user
  { username : string; u_created_at : timestamp }.

Record friend_row : Type := mk_friend
  { f_user : string; f_friend : string; f_added_at : timestamp; f_status : status }.

Record score_row : Type := mk_score
  { l_game : string; l_user : string; l_score : Z; l_created_at : timestamp }.

Record ach_row : Type := mk_ach
  { a_user : string; a_key : string; a_reason : string; a_awarded_at : timestamp }.

Record World : Type := mk_world
  { users : list user_row;
    friends : list friend_row;
    leaderboard : list score_row;
    achievements : list ach_row;
    utc : nat -> timestamp;
    ticks : nat }.

(** The store right after [init_db] on a fresh file. *)
Definition empty_world (clock : nat -> timestamp) : World :=
  mk_world [] [] [] [] clock 0%nat.

Definition set_users (w : World) (x : list user_row) : World :=
  mk_world x (friends w) (leaderboard w) (achievements w) (utc w) (ticks w).
Definition set_friends (w : World) (x : list friend_row) : World :=
  mk_world (users w) x (leaderboard w) (achievements w) (utc w) (ticks w).
Definition set_leaderboard (w : World) (x : list score_row) : World :=
  mk_world (users w) (friends w) x (achievements w) (utc w) (ticks w).
Definition set_achievements (w : World) (x : list ach_row) : World :=
  mk_world (users w) (friends w) (leaderboard w) x (utc w) (ticks w).

(** [datetime.utcnow().isoformat()] *)
Definition utcnow (w : World) : timestamp * World :=
  (utc w (ticks w),
   mk_world (users w) (friends w) (leaderboard w) (achievements w) (utc w) (S (ticks w))).

(** What a helper that runs a [SUM] does: it returns a value, or it raises
    [sqlite3.OperationalError] ("integer overflow"). *)
Inductive outcome (A : Type) : Type :=
| Returns (a : A)
| Raises.

Arguments Returns {A} a.
Arguments Raises {A}.

Definition bind {A B : Type} (m : outcome A) (k : A -> outcome B) : outcome B :=
  match m with
  | Returns a => k a
  | Raises => Raises
  end.


(** The range of a 64-bit signed integer. *)
Definition int64 (z : Z) : bool := (- 2 ^ 63 <=? z) && (z <=? 2 ^ 63 - 1).

(** ** SQL on lists *)

Module Sql.

(** [ORDER BY]: [before x y] holds when [x] may stand in front of [y]. *)
Section OrderBy.
Context {A : Type} (before : A -> A -> bool).

Fixpoint place (x : A) (l : list A) : list A :=
  match l with
  | [] => [x]
  | y :: t => if before x y then x :: y :: t else y :: place x t
  end.

Fixpoint order_by (l : list A) : list A :=
  match l with
  | [] => []
  | x :: t => place x (order_by t)
  end.
End OrderBy.

(** [ORDER BY added_at DESC] on TEXT: bytewise comparison. *)
Definition text_desc (a b : timestamp) : bool := String.leb b a.

(** NULL sorts below every integer. *)
Definition int_desc (a b : option Z) : bool :=
  match a, b with
  | _, None => true
  | None, Some _ => false
  | Some x, Some y => y <=? x
  end.

(** [LIMIT n]: a negative [n] puts no bound on the rows returned. *)
Definition limit {A : Type} (n : Z) (l : list A) : list A :=
  if n <? 0 then l else firstn (Z.to_nat n) l.

(** Aggregates skip NULL and are NULL when nothing is left. *)
Definition agg (op : Z -> Z -> Z) (vs : list (option Z)) : option Z :=
  fold_left (fun acc v =>
               match acc, v with
               | a, None => a
               | None, Some x => Some x
               | Some a, Some x => Some (op a x)
               end) vs None.

Definition max (vs : list (option Z)) : option Z := agg Z.max vs.

(** [SUM] adds the values one by one in the order the rows are visited;
    once a running sum leaves 64 bits the query fails, whatever follows. *)
Definition sum (vs : list (option Z)) : outcome (option Z) :=
  fold_left (fun acc v =>
               match acc, v with
               | Raises, _ => Raises
               | Returns a, None => Returns a
               | Returns None, Some x =>
                   if int64 x then Returns (Some x) else Raises
               | Returns (Some a), Some x =>
                   if int64 (a + x) then Returns (Some (a + x)) else Raises
               end) vs (Returns None).

Definition count {A : Type} (rows : list A) : Z := Z.of_nat (List.length rows).

(** [GROUP BY]: one group per distinct key, holding the rows of that key. *)
Definition group_by {K R : Type} (dec : forall a b : K, {a = b} + {a <> b})
           (key : R -> K) (rows : list R) : list (K * list R) :=
  map (fun k => (k, filter (fun r => if dec (key r) k then true else false) rows))
      (nodup dec (map key rows)).

End Sql.

Definition pair_dec (a b : string * string) : {a = b} + {a <> b}.
Proof. decide equality; apply string_dec. Defined.

(** Python: [x if x is not None else 0] (a fetched row is always truthy). *)
Definition or_zero (x : option Z) : Z :=
  match x with Some v => v | None => 0 end.

(** Python: [x or 0]. *)
Definition py_or0 (x : option Z) : Z :=
  match x with
  | Some v => if v =? 0 then 0 else v
  | None => 0
  end.

(** Python: [str] of an integer, as an f-string prints it. *)
Definition str (n : Z) : string := NilZero.string_of_int (Z.to_int n).

(** ** User registry *)

Definition add_user_if_not_exists (name : string) (w : World) : World :=
  if existsb (fun r => username r =? name)%string (users w) then w
  else let (now, w1) := utcnow w in
       set_users w1 (users w1 ++ [mk_user name now]).

(** ** Friend graph *)

Definition add_friend (user friend : string) (w : World) : World :=
  let (now, w1) := utcnow w in
  set_friends w1 (friends w1 ++ [mk_friend user friend now pending]).

Definition get_friend_requests (user : string) (w : World) : list string :=
  map f_user
      (Sql.order_by (fun a b => Sql.text_desc (f_added_at a) (f_added_at b))
         (filter (fun r => (f_friend r =? user)%string && status_eqb (f_status r) pending)
                 (friends w))).

(** The row test of the [UPDATE] in [accept_friend_request]. *)
Definition is_pending_edge (owner other : string) (r : friend_row) : bool :=
  (f_user r =? owner)%string && (f_friend r =? other)%string
  && status_eqb (f_status r) pending.

Definition is_edge (owner other : string) (r : friend_row) : bool :=
  (f_user r =? owner)%string && (f_friend r =? other)%string.

(** [UPDATE friends SET status='accepted', added_at=now WHERE user=requester
    AND friend=user AND status='pending'], on the rows of the table. *)
Definition promoted (user requester : string) (now : timestamp)
           (rows : list friend_row) : list friend_row :=
  map (fun r => if is_pending_edge requester user r
                then mk_friend (f_user r) (f_friend r) now accepted
                else r) rows.

Definition accept_friend_request (user requester : string) (w : World) : World :=
  let (now, w1) := utcnow w in
  let w2 := set_friends w1 (promoted user requester now (friends w1)) in
  if existsb (is_edge user requester) (friends w2) then w2
  else let (now', w3) := utcnow w2 in
       set_friends w3 (friends w3 ++ [mk_friend user requester now' accepted]).

Definition get_friends (user : string) (w : World) : list string :=
  map f_friend
      (Sql.order_by (fun a b => Sql.text_desc (f_added_at a) (f_added_at b))
         (filter (fun r => (f_user r =? user)%string && status_eqb (f_status r) accepted)
                 (friends w))).

(** ** Score ledger and achievement engine *)

Definition score_thresholds : list Z := [500; 1000].
Definition play_thresholds : list Z := [5; 10; 25].

(** f"{game}_score_{th}", f"Score >= {th} in {game}" and their play-count
    counterparts. *)
Definition score_key (game : string) (th : Z) : string :=
  (game ++ "_score_" ++ str th)%string.
Definition score_reason (game : string) (th : Z) : string :=
  ("Score >= " ++ str th ++ " in " ++ game)%string.
Definition plays_key (game : string) (pth : Z) : string :=
  (game ++ "_plays_" ++ str pth)%string.
Definition plays_reason (game : string) (pth : Z) : string :=
  ("Played " ++ str pth ++ " games of " ++ game)%string.

Definition holds (user key : string) (a : ach_row) : bool :=
  (a_user a =? user)%string && (a_key a =? key)%string.

Definition _award (user key reason : string) (w : World) : World :=
  if existsb (holds user key) (achievements w) then w
  else let (now, w1) := utcnow w in
       set_achievements w1 (achievements w1 ++ [mk_ach user key reason now]).

Definition of_user_game (user game : string) (r : score_row) : bool :=
  (l_user r =? user)%string && (l_game r =? game)%string.

Definition _maybe_award_achievements (user game : string) (score : Z) (w : World) : World :=
  let w1 := fold_left
              (fun w th => if score >=? th
                           then _award user (score_key game th) (score_reason game th) w
                           else w)
              score_thresholds w in
  let cnt := Sql.count (filter (of_user_game user game) (leaderboard w1)) in
  fold_left
    (fun w pth => if cnt >=? pth
                  then _award user (plays_key game pth) (plays_reason game pth) w
                  else w)
    play_thresholds w1.

Definition record_score (game user : string) (score : Z) (w : World) : World :=
  let (now, w1) := utcnow w in
  let w2 := set_leaderboard w1 (leaderboard w1 ++ [mk_score game user score now]) in
  _maybe_award_achievements user game score w2.

(** The [score] column of some rows, as SQL values. *)
Definition scores_of (rows : list score_row) : list (option Z) :=
  map (fun r => Some (l_score r)) rows.

(** One row of [SELECT user, game, MAX(score), COUNT( * ) ... GROUP BY user, game]. *)
Definition scan_row : Type := (string * string * option Z * Z)%type.

Definition rescan_rows (w : World) : list scan_row :=
  map (fun g => (fst (fst g), snd (fst g), Sql.max (scores_of (snd g)), Sql.count (snd g)))
      (Sql.group_by pair_dec (fun r => (l_user r, l_game r)) (leaderboard w)).

(** The body of [for r in rows], on the pair of [awarded] and the world. *)
Definition rescan_row (st : Z * World) (r : scan_row) : Z * World :=
  let '(user, game, ms, pl) := r in
  let max_score := py_or0 ms in
  let plays := py_or0 (Some pl) in
  let st1 := fold_left
               (fun st th => if max_score >=? th
                             then (fst st + 1,
                                   _award user (score_key game th) (score_reason game th) (snd st))
                             else st)
               [500; 1000] st in
  fold_left
    (fun st pth => if plays >=? pth
                   then (fst st + 1,
                         _award user (plays_key game pth) (plays_reason game pth) (snd st))
                   else st)
    [5; 10; 25] st1.

Definition rescan_achievements (w : World) : Z * World :=
  fold_left rescan_row (rescan_rows w) (0, w).

(** ** Leaderboard aggregator *)

Definition get_user_total (user : string) (w : World) : outcome Z :=
  bind (Sql.sum (scores_of (filter (fun r => l_user r =? user)%string (leaderboard w))))
       (fun total => Returns (or_zero total)).

Definition get_user_game_total (user game : string) (w : World) : outcome Z :=
  bind (Sql.sum (scores_of (filter (of_user_game user game) (leaderboard w))))
       (fun total => Returns (or_zero total)).

Definition get_user_overall_by_bests (user : string) (w : World) : outcome Z :=
  bind (Sql.sum
          (map (fun g => Sql.max (scores_of (snd g)))
               (Sql.group_by string_dec l_game
                  (filter (fun r => l_user r =? user)%string (leaderboard w)))))
       (fun total => Returns (or_zero total)).




Definition get_user_best_score (user : string) (w : World) : Z :=
  or_zero (Sql.max (scores_of (filter (fun r => l_user r =? user)%string (leaderboard w)))).

Definition get_user_best_for_game (user game : string) (w : World) : Z :=
  or_zero (Sql.max (scores_of (filter (of_user_game user game) (leaderboard w)))).

(** [WHERE best > ?]: a NULL never passes. *)
Definition exceeds (best : Z) (v : option Z) : bool :=
  match v with Some x => x >? best | None => false end.

Definition get_rank_for_game (user game : string) (w : World) : option Z :=
  match Sql.max (scores_of (filter (of_user_game user game) (leaderboard w))) with
  | None => None
  | Some best =>
      let per_user :=
        map (fun g => (fst g, Sql.max (scores_of (snd g))))
            (Sql.group_by string_dec l_user
               (filter (fun r => l_game r =? game)%string (leaderboard w))) in
      let cnt := Sql.count (filter (fun r => exceeds best (snd r)) per_user) in
      Some (cnt + 1)
  end.

(** ** Calls and reachable stores *)

Inductive call : Type :=
| AddUser (name : string)
| AddFriend (user friend : string)
| AcceptFriend (user requester : string)
| RecordScore (game user : string) (score : Z)
| Rescan.

Definition exec (w : World) (c : call) : World :=
  match c with
  | AddUser n => add_user_if_not_exists n w
  | AddFriend u f => add_friend u f w
  | AcceptFriend u r => accept_friend_request u r w
  | RecordScore g u s => record_score g u s w
  | Rescan => snd (rescan_achievements w)
  end.

Definition run (cs : list call) (w : World) : World := fold_left exec cs w.

(** A clock for the worked scenarios: the n-th reading carries the number n
    as its fraction of a second. *)
Definition sample_clock (n : nat) : timestamp :=
  let d := NilZero.string_of_uint (Nat.to_uint n) in
  ("2024-01-01T00:00:00." ++ d)%string.

(** ** The quantities the specification speaks of *)

(** The score events of [user] in [game], oldest first. *)
Definition events (user game : string) (w : World) : list score_row :=
  filter (of_user_game user game) (leaderboard w).

Definition has_events (user game : string) (w : World) : bool :=
  existsb (of_user_game user game) (leaderboard w).

(** The largest of [x] and the members of [l]. *)
Definition list_max (x : Z) (l : list Z) : Z := fold_left Z.max l x.

Definition list_sum (l : list Z) : Z := fold_right Z.add 0 l.

(** The best score of a user who has played the game. *)
Definition max_score_in (user game : string) (w : World) : Z :=
  match map l_score (events user game w) with
  | [] => 0
  | x :: t => list_max x t
  end.

Definition plays_in (user game : string) (w : World) : Z :=
  Z.of_nat (List.length (events user game w)).

(** The distinct users with an event in [game]. *)
Definition players (game : string) (w : World) : list string :=
  nodup string_dec (map l_user (filter (fun r => l_game r =? game)%string (leaderboard w))).

(** The distinct games [user] has an event in. *)
Definition games_of (user : string) (w : World) : list string :=
  nodup string_dec (map l_game (filter (fun r => l_user r =? user)%string (leaderboard w))).

Definition sum_of_bests (user : string) (w : World) : Z :=
  list_sum (map (fun g => max_score_in user g w) (games_of user w)).

(** The distinct (user, game) pairs of the ledger. *)
Definition pairs_played (w : World) : list (string * string) :=
  nodup pair_dec (map (fun r => (l_user r, l_game r)) (leaderboard w)).

(** The (user, game, threshold) combinations whose threshold is met:
    those on the best score, then those on the number of events. *)
Definition score_matches (w : World) : list (string * string * Z) :=
  filter (fun c => max_score_in (fst (fst c)) (snd (fst c)) w >=? snd c)
         (list_prod (pairs_played w) [500; 1000]).

Definition play_matches (w : World) : list (string * string * Z) :=
  filter (fun c => plays_in (fst (fst c)) (snd (fst c)) w >=? snd c)
         (list_prod (pairs_played w) [5; 10; 25]).

Definition threshold_matches (w : World) : Z :=
  Z.of_nat (List.length (score_matches w)) + Z.of_nat (List.length (play_matches w)).

(** The (user, key) pairs of the achievements table. *)
Definition grants (w : World) : list (string * string) :=
  map (fun a => (a_user a, a_key a)) (achievements w).

Definition has_achievement (user key : string) (w : World) : bool :=
  existsb (holds user key) (achievements w).

(** The world with its achievements table emptied: what a rescan starts
    from when it derives the grants from the ledger alone. *)
Definition without_achievements (w : World) : World := set_achievements w [].

(** ** Award attempts

    Both the per-record evaluation and the rescan come down to a sequence of
    [_award] calls.  An attempt is the triple (user, key, reason) passed to
    [_award]. *)

Definition attempt : Type := (string * string * string)%type.

Definition award_all (gs : list attempt) (w : World) : World :=
  fold_left (fun w g => _award (fst (fst g)) (snd (fst g)) (snd g) w) gs w.

Definition score_attempts (user game : string) (score : Z) : list attempt :=
  map (fun th => (user, score_key game th, score_reason game th))
      (filter (fun th => score >=? th) score_thresholds).

Definition play_attempts (user game : string) (cnt : Z) : list attempt :=
  map (fun pth => (user, plays_key game pth, plays_reason game pth))
      (filter (fun pth => cnt >=? pth) play_thresholds).

(** The attempts of one iteration of the rescan loop. *)
Definition row_attempts (r : scan_row) : list attempt :=
  let '(user, game, ms, pl) := r in
  score_attempts user game (py_or0 ms) ++ play_attempts user game (py_or0 (Some pl)).

Definition rescan_attempts (w : World) : list attempt :=
  flat_map row_attempts (rescan_rows w).

(** The attempts a rescan makes for one (user, game) pair of the ledger. *)
Definition pair_attempts (user game : string) (w : World) : list attempt :=
  score_attempts user game (max_score_in user game w)
  ++ play_attempts user game (plays_in user game w).

(** A sequence of [record_score] calls, as (game, user, score) triples. *)
Definition record_calls (cs : list (string * string * Z)) : list call :=
  map (fun c => RecordScore (fst (fst c)) (snd (fst c)) (snd c)) cs.

(** The world between the [INSERT] of [record_score] and its call of
    [_maybe_award_achievements]. *)
Definition with_score (game user : string) (score : Z) (w : World) : World :=
  set_leaderboard (snd (utcnow w))
    (leaderboard w ++ [mk_score game user score (utc w (ticks w))]).

(** ** Invariants relating the achievements to the ledger *)

Definition has_scores (user : string) (w : World) : bool :=
  existsb (fun r => l_user r =? user)%string (leaderboard w).

(** Every threshold the ledger meets is granted. *)
Definition complete (w : World) : Prop :=
  (forall u g th, In th score_thresholds -> th <= max_score_in u g w ->
                  has_achievement u (score_key g th) w = true)
  /\ (forall u g pth, In pth play_thresholds -> pth <= plays_in u g w ->
                      has_achievement u (plays_key g pth) w = true).

(** Every grant is backed by a threshold the ledger meets. *)
Definition justified (w : World) : Prop :=
  forall u k, has_achievement u k w = true ->
    exists g,
      (exists th, In th score_thresholds /\ th <= max_score_in u g w
                  /\ k = score_key g th)
      \/ (exists pth, In pth play_thresholds /\ pth <= plays_in u g w
                      /\ k = plays_key g pth).

(** ** The remaining queries of [db.py] *)

(** [MAX] over a TEXT column: the bytewise largest value, NULLs skipped. *)
Definition text_max (vs : list (option string)) : option string :=
  fold_left (fun acc v =>
               match acc, v with
               | a, None => a
               | None, Some x => Some x
               | Some a, Some x => Some (if String.leb a x then x else a)
               end) vs None.

(** One row (user, best score, latest timestamp) per user of the game. *)
Definition get_leaderboard (game : string) (limit : Z) (w : World)
  : list (string * option Z * option timestamp) :=
  Sql.limit limit
    (Sql.order_by (fun a b => Sql.int_desc (snd (fst a)) (snd (fst b)))
       (map (fun g => (fst g,
                       Sql.max (scores_of (snd g)),
                       text_max (map (fun r => Some (l_created_at r)) (snd g))))
            (Sql.group_by string_dec l_user
               (filter (fun r => l_game r =? game)%string (leaderboard w))))).






Definition get_user_achievements (user : string) (w : World)
  : list (string * string * timestamp) :=
  map (fun a => (a_key a, a_reason a, a_awarded_at a))
      (Sql.order_by (fun a b => Sql.text_desc (a_awarded_at a) (a_awarded_at b))
         (filter (fun a => a_user a =? user)%string (achievements w))).

(** The line feed of ["\n".join(out)]. *)
Definition nl : string := String "010"%char EmptyString.

Definition achievement_line (a : string * string * timestamp) : string :=
  let '(k, reason, at_) := a in
  ("- " ++ k ++ ": " ++ reason ++ " (" ++ at_ ++ ")")%string.

Definition get_user_profile (user : string) (w : World) : outcome string :=
  let created :=
    match filter (fun r => username r =? user)%string (users w) with
    | u :: _ => u_created_at u
    | [] => "unknown"
    end in
  bind (get_user_overall_by_bests user w) (fun total =>
  let plays :=
    py_or0 (Some (Sql.count (filter (fun r => l_user r =? user)%string (leaderboard w)))) in
  let achs := get_user_achievements user w in
  let out :=
    [("Username: " ++ user)%string;
     ("Joined: " ++ created)%string;
     ("Total score: " ++ str total)%string;
     ("Total plays: " ++ str plays)%string;
     (nl ++ "Achievements:")%string]
    ++ match achs with
       | [] => ["- None yet"]
       | _ :: _ => map achievement_line achs
       end in
  Returns (String.concat nl out)).

(** ** The launcher's tier names ([game_zone.py]) *)

(** [s.endswith(suf)]: some tail of [s] is [suf]. *)
Fixpoint endswith (s suf : string) : bool :=
  if (s =? suf)%string then true
  else match s with
       | EmptyString => false
       | String _ t => endswith t suf
       end.

(** [sub in s]: some tail of [s] starts with [sub]. *)
Fixpoint contains (sub s : string) : bool :=
  if String.prefix sub s then true
  else match s with
       | EmptyString => false
       | String _ t => contains sub t
       end.

Definition _pretty_achievement_name (key : string) : string :=
  if endswith key "_score_500" then "Pro"
  else if endswith key "_score_1000" then "Hacker"
  else
    let legacy :=
      if endswith key "_veteran" then "Veteran"
      else if endswith key "_big_score" then "Big Scorer"
      else key in
    if contains "_plays_" key then
      if endswith key "_plays_5" then "Rookie"
      else if endswith key "_plays_10" then "Pro"
      else if endswith key "_plays_25" then "Expert"
      else legacy
    else legacy.

(** ** Further quantities *)

(** The running sums of [l] from [a] on, as [SUM] forms them. *)
Fixpoint running (a : Z) (l : list Z) : list Z :=
  match l with
  | [] => []
  | x :: t => (a + x) :: running (a + x) t
  end.

(** The sum of the absolute values: a bound on every running sum of [l], in
    whatever order its members are added. *)
Definition magnitude (l : list Z) : Z := list_sum (map Z.abs l).

Definition fits (l : list Z) : bool := magnitude l <=? 2 ^ 63 - 1.

(** One more value added to a sum already formed. *)
Definition add64 (t x : Z) : outcome Z :=
  if int64 (t + x) then Returns (t + x) else Raises.

(** What [SUM] yields over [l] when it does not fail. *)
Definition summed (l : list Z) : option Z :=
  match l with
  | [] => None
  | _ :: _ => Some (list_sum l)
  end.

Definition registered (name : string) (w : World) : bool :=
  existsb (fun r => username r =? name)%string (users w).


(** All scores of a user, oldest first. *)
Definition scores_by (user : string) (w : World) : list Z :=
  map l_score (filter (fun r => l_user r =? user)%string (leaderboard w)).

(** The per-game bests of a user, one per game played. *)
Definition bests_of (user : string) (w : World) : list Z :=
  map (fun g => max_score_in user g w) (games_of user w).




(** A row as the achievement engine writes it: a score or play key of some
    game for one of the thresholds, with the matching reason. *)
Definition engine_row (a : ach_row) : Prop :=
  (exists g th, In th score_thresholds
                /\ a_key a = score_key g th /\ a_reason a = score_reason g th)
  \/ (exists g pth, In pth play_thresholds
                    /\ a_key a = plays_key g pth /\ a_reason a = plays_reason g pth).

(** * Facts about the SQL operators *)

Module SqlFacts.

Section OrderBy.
Context {A : Type} (before : A -> A -> bool).

Lemma place_perm (x : A) (l : list A) :
  Permutation (Sql.place before x l) (x :: l).
Proof.
  induction l as [|y t IH]; simpl.
  - apply Permutation_refl.
  - destruct (before x y).
    + apply Permutation_refl.
    + eapply perm_trans; [apply perm_skip, IH | apply perm_swap].
Qed.

Lemma order_by_perm (l : list A) : Permutation (Sql.order_by before l) l.
Proof.
  induction l as [|x t IH]; simpl.
  - constructor.
  - eapply perm_trans; [apply place_perm | apply perm_skip, IH].
Qed.

Lemma order_by_In (x : A) (l : list A) :
  In x (Sql.order_by before l) <-> In x l.
Proof.
  split; apply Permutation_in.
  - apply order_by_perm.
  - apply Permutation_sym, order_by_perm.
Qed.

Lemma order_by_length (l : list A) :
  List.length (Sql.order_by before l) = List.length l.
Proof. apply Permutation_length, order_by_perm. Qed.

Hypothesis before_total : forall x y, before x y = true \/ before y x = true.
Hypothesis before_trans :
  forall x y z, before x y = true -> before y z = true -> before x z = true.

Lemma place_sorted (x : A) (l : list A) :
  StronglySorted (fun a b => before a b = true) l ->
  StronglySorted (fun a b => before a b = true) (Sql.place before x l).
Proof.
  induction 1 as [|y t Hs IH Hy]; simpl.
  - repeat constructor.
  - destruct (before x y) eqn:E.
    + constructor; [constructor; assumption|].
      constructor; [assumption|].
      rewrite Forall_forall in *. intros z Hz. eauto.
    + constructor; [assumption|].
      rewrite Forall_forall in *. intros z Hz.
      apply (Permutation_in _ (place_perm x t)) in Hz.
      destruct Hz as [<-|Hz]; [|auto].
      destruct (before_total x y) as [H|H]; congruence.
Qed.

Lemma order_by_sorted (l : list A) :
  StronglySorted (fun a b => before a b = true) (Sql.order_by before l).
Proof.
  induction l; simpl; [constructor | apply place_sorted; assumption].
Qed.
End OrderBy.

Lemma firstn_incl {A : Type} (n : nat) (l : list A) (x : A) :
  In x (firstn n l) -> In x l.
Proof.
  intros H. rewrite <- (firstn_skipn n l). apply in_or_app. left. exact H.
Qed.

Lemma firstn_sorted {A : Type} (R : A -> A -> Prop) (n : nat) (l : list A) :
  StronglySorted R l -> StronglySorted R (firstn n l).
Proof.
  intros H. revert n. induction H as [|x t Hs IH Hx]; intros [|n]; simpl;
    try constructor.
  - apply IH.
  - rewrite Forall_forall in *. intros y Hy. apply Hx.
    eapply firstn_incl; eauto.
Qed.

Lemma limit_incl {A : Type} (n : Z) (l : list A) (x : A) :
  In x (Sql.limit n l) -> In x l.
Proof.
  unfold Sql.limit. destruct (n <? 0); [auto|]. apply firstn_incl.
Qed.

Lemma limit_sorted {A : Type} (R : A -> A -> Prop) (n : Z) (l : list A) :
  StronglySorted R l -> StronglySorted R (Sql.limit n l).
Proof.
  unfold Sql.limit. destruct (n <? 0); [auto|]. apply firstn_sorted.
Qed.

(** Aggregating a column without NULLs. *)
Lemma agg_some (op : Z -> Z -> Z) (a : Z) (l : list Z) :
  fold_left (fun acc v =>
               match acc, v with
               | a, None => a
               | None, Some x => Some x
               | Some a, Some x => Some (op a x)
               end) (map Some l) (Some a)
  = Some (fold_left op l a).
Proof.
  revert a. induction l as [|x t IH]; intros a; simpl; [reflexivity | apply IH].
Qed.

Lemma agg_values (op : Z -> Z -> Z) (l : list Z) :
  Sql.agg op (map Some l)
  = match l with [] => None | x :: t => Some (fold_left op t x) end.
Proof.
  destruct l as [|x t]; [reflexivity|]. unfold Sql.agg. simpl. apply agg_some.
Qed.

Section GroupBy.
Context {K R : Type} (dec : forall a b : K, {a = b} + {a <> b}) (key : R -> K).

Lemma group_by_keys (rows : list R) :
  map fst (Sql.group_by dec key rows) = nodup dec (map key rows).
Proof.
  unfold Sql.group_by. rewrite map_map. simpl. apply map_id.
Qed.

Lemma group_by_In (rows : list R) (g : K * list R) :
  In g (Sql.group_by dec key rows) <->
  In (fst g) (map key rows)
  /\ snd g = filter (fun r => if dec (key r) (fst g) then true else false) rows.
Proof.
  unfold Sql.group_by. rewrite in_map_iff. split.
  - intros (k & <- & Hk). simpl. rewrite nodup_In in Hk. auto.
  - intros [Hk Hg]. exists (fst g). rewrite nodup_In. split; [|assumption].
    destruct g; simpl in *; subst; reflexivity.
Qed.

Lemma group_nonempty (rows : list R) (g : K * list R) :
  In g (Sql.group_by dec key rows) -> snd g <> [].
Proof.
  rewrite group_by_In. intros [Hk ->] E.
  apply in_map_iff in Hk. destruct Hk as (r & Hr & Hin).
  assert (In r []) as []. rewrite <- E. apply filter_In. split; [assumption|].
  destruct (dec (key r) (fst g)); congruence.
Qed.
End GroupBy.

End SqlFacts.

(** * Sums in 64 bits *)

Module Sums.

Lemma list_sum_app (l1 l2 : list Z) : list_sum (l1 ++ l2) = list_sum l1 + list_sum l2.
Proof.
  unfold list_sum. induction l1 as [|x l1 IH]; simpl; [reflexivity | rewrite IH; lia].
Qed.

(** One more row after the rows already summed. *)
Lemma sum_snoc (vs : list (option Z)) (v : option Z) :
  Sql.sum (vs ++ [v])
  = match Sql.sum vs, v with
    | Raises, _ => Raises
    | Returns a, None => Returns a
    | Returns None, Some x => if int64 x then Returns (Some x) else Raises
    | Returns (Some a), Some x =>
        if int64 (a + x) then Returns (Some (a + x)) else Raises
    end.
Proof. unfold Sql.sum. rewrite fold_left_app. reflexivity. Qed.

Lemma running_snoc (a : Z) (l : list Z) (x : Z) :
  running a (l ++ [x]) = running a l ++ [a + list_sum l + x].
Proof.
  revert a. induction l as [|y l IH]; intros a; simpl.
  - f_equal. lia.
  - rewrite IH. do 3 f_equal. lia.
Qed.

Lemma sum_exact (l : list Z) :
  Sql.sum (map Some l)
  = if forallb int64 (running 0 l) then Returns (summed l) else Raises.
Proof.
  induction l as [|x l IH] using rev_ind; [reflexivity|].
  rewrite map_app. cbn [map]. rewrite sum_snoc, IH, running_snoc, forallb_app.
  cbn [forallb]. rewrite andb_true_r.
  destruct (forallb int64 (running 0 l)); [|reflexivity]. cbn [andb].
  destruct l as [|y l].
  - simpl. rewrite Z.add_0_r. reflexivity.
  - cbn [summed]. change (0 + list_sum (y :: l) + x) with (list_sum (y :: l) + x).
    destruct (int64 (list_sum (y :: l) + x)); [|reflexivity].
    unfold summed. destruct ((y :: l) ++ [x]) eqn:E; [discriminate|].
    rewrite <- E, list_sum_app. simpl. do 2 f_equal. lia.
Qed.

Lemma magnitude_nonneg (l : list Z) : 0 <= magnitude l.
Proof. unfold magnitude. induction l as [|x l IH]; simpl in *; lia. Qed.

Lemma running_within (M : Z) (l : list Z) (a : Z) :
  Z.abs a + magnitude l <= M -> Forall (fun z => Z.abs z <= M) (running a l).
Proof.
  revert a. induction l as [|x l IH]; intros a H; simpl; constructor.
  - pose proof (magnitude_nonneg l). unfold magnitude in *. simpl in H. lia.
  - apply IH. unfold magnitude in *. simpl in H. lia.
Qed.

Lemma fits_running (l : list Z) : fits l = true -> forallb int64 (running 0 l) = true.
Proof.
  unfold fits. intros H. apply Z.leb_le in H. apply forallb_forall. intros z Hz.
  pose proof (running_within (2 ^ 63 - 1) l 0) as Hw.
  rewrite Forall_forall in Hw. specialize (Hw ltac:(simpl; lia) z Hz).
  unfold int64. apply andb_true_iff. rewrite !Z.leb_le. lia.
Qed.





Lemma magnitude_filter {A : Type} (f : A -> Z) (p : A -> bool) (l : list A) :
  magnitude (map f (filter p l)) <= magnitude (map f l).
Proof.
  unfold magnitude. induction l as [|x l IH]; simpl; [lia|].
  destruct (p x); simpl; lia.
Qed.



End Sums.

(** * Friend graph *)

Module FriendGraph.

Lemma status_eqb_eq (a b : status) : status_eqb a b = true <-> a = b.
Proof. destruct a, b; simpl; split; congruence. Qed.

Lemma is_edge_true (o x : string) (r : friend_row) :
  is_edge o x r = true <-> f_user r = o /\ f_friend r = x.
Proof.
  unfold is_edge. rewrite andb_true_iff, !String.eqb_eq. tauto.
Qed.

Lemma is_pending_edge_true (o x : string) (r : friend_row) :
  is_pending_edge o x r = true <->
  f_user r = o /\ f_friend r = x /\ f_status r = pending.
Proof.
  unfold is_pending_edge.
  rewrite !andb_true_iff, !String.eqb_eq, status_eqb_eq. tauto.
Qed.

(** What the two listings show, in terms of the rows of the table. *)
Lemma get_friend_requests_In (user x : string) (w : World) :
  In x (get_friend_requests user w) <->
  exists t, In (mk_friend x user t pending) (friends w).
Proof.
  unfold get_friend_requests. rewrite in_map_iff. split.
  - intros (r & <- & Hr). rewrite SqlFacts.order_by_In, filter_In in Hr.
    destruct Hr as [Hin Hp].
    rewrite andb_true_iff, String.eqb_eq, status_eqb_eq in Hp.
    destruct Hp as [Hf Hs]. destruct r as [u f t s]; simpl in *; subst.
    exists t. assumption.
  - intros (t & Hin). exists (mk_friend x user t pending). split; [reflexivity|].
    rewrite SqlFacts.order_by_In, filter_In. split; [assumption|]. simpl.
    rewrite String.eqb_refl. reflexivity.
Qed.

Lemma get_friends_In (user x : string) (w : World) :
  In x (get_friends user w) <->
  exists t, In (mk_friend user x t accepted) (friends w).
Proof.
  unfold get_friends. rewrite in_map_iff. split.
  - intros (r & <- & Hr). rewrite SqlFacts.order_by_In, filter_In in Hr.
    destruct Hr as [Hin Hp].
    rewrite andb_true_iff, String.eqb_eq, status_eqb_eq in Hp.
    destruct Hp as [Hf Hs]. destruct r as [u f t s]; simpl in *; subst.
    exists t. assumption.
  - intros (t & Hin). exists (mk_friend user x t accepted). split; [reflexivity|].
    rewrite SqlFacts.order_by_In, filter_In. split; [assumption|]. simpl.
    rewrite String.eqb_refl. reflexivity.
Qed.

Lemma add_friend_rows (user friend : string) (w : World) :
  friends (add_friend user friend w)
  = friends w ++ [mk_friend user friend (utc w (ticks w)) pending].
Proof. reflexivity. Qed.

Lemma accept_rows (user requester : string) (w : World) :
  let rows := promoted user requester (utc w (ticks w)) (friends w) in
  friends (accept_friend_request user requester w)
  = if existsb (is_edge user requester) rows
    then rows
    else rows ++ [mk_friend user requester (utc w (S (ticks w))) accepted].
Proof.
  unfold accept_friend_request, promoted. simpl.
  destruct (existsb _ _); reflexivity.
Qed.

Lemma promoted_flips (user requester : string) (now t : timestamp)
      (rows : list friend_row) :
  In (mk_friend requester user t pending) rows ->
  In (mk_friend requester user now accepted) (promoted user requester now rows).
Proof.
  intros H. unfold promoted. apply in_map_iff.
  exists (mk_friend requester user t pending). split; [|assumption].
  unfold is_pending_edge. simpl. rewrite !String.eqb_refl. reflexivity.
Qed.

(** A row the [UPDATE] leaves accepted or turns accepted keeps its ends. *)
Lemma promoted_edge (user requester : string) (now : timestamp)
      (rows : list friend_row) (o x : string) :
  existsb (is_edge o x) (promoted user requester now rows) = true ->
  exists r, In r rows /\ f_user r = o /\ f_friend r = x
            /\ ((is_pending_edge requester user r = true
                 /\ In (mk_friend o x now accepted) (promoted user requester now rows))
                \/ (is_pending_edge requester user r = false
                    /\ In r (promoted user requester now rows))).
Proof.
  rewrite existsb_exists. intros (r' & Hin & He).
  unfold promoted in Hin. apply in_map_iff in Hin. destruct Hin as (r & Hr & Hin).
  exists r. destruct (is_pending_edge requester user r) eqn:E.
  - subst r'. apply is_edge_true in He. simpl in He. destruct He as [<- <-].
    repeat split; try assumption. left. split; [reflexivity|].
    unfold promoted. apply in_map_iff. exists r. rewrite E. auto.
  - subst r'. apply is_edge_true in He. destruct He as [<- <-].
    repeat split; try assumption. right. split; [reflexivity|].
    unfold promoted. apply in_map_iff. exists r. rewrite E. auto.
Qed.

(** Accepting a request of [requester] that the store holds for [user]. *)
Lemma accept_pending (user requester : string) (w : World) :
  In requester (get_friend_requests user w) ->
  let w2 := accept_friend_request user requester w in
  In (mk_friend requester user (utc w (ticks w)) accepted) (friends w2)
  /\ (user = requester
      \/ existsb (is_pending_edge user requester) (friends w) = false ->
      exists t, In (mk_friend user requester t accepted) (friends w2)).
Proof.
  intros Hreq w2. subst w2. rewrite accept_rows. cbv zeta.
  apply get_friend_requests_In in Hreq. destruct Hreq as (t0 & Hreq).
  assert (Hflip : In (mk_friend requester user (utc w (ticks w)) accepted)
                     (promoted user requester (utc w (ticks w)) (friends w)))
    by (apply promoted_flips with (t := t0); exact Hreq).
  split.
  - destruct (existsb _ _); [assumption | apply in_or_app; left; assumption].
  - intros Hside.
    destruct (existsb (is_edge user requester) _) eqn:E.
    + apply promoted_edge in E.
      destruct E as (r & Hin & Hu & Hf & [[_ Hacc] | [Hnp Hkept]]).
      * eexists. exact Hacc.
      * destruct r as [u f t s]; simpl in *; subst u f.
        destruct s.
        -- exfalso. destruct Hside as [Heq | Hclean].
           ++ unfold is_pending_edge in Hnp. simpl in Hnp.
              rewrite Heq, !String.eqb_refl in Hnp. discriminate.
           ++ assert (existsb (is_pending_edge user requester) (friends w) = true)
                as Hex; [|congruence].
              apply existsb_exists. eexists. split; [exact Hin|].
              unfold is_pending_edge. simpl. rewrite !String.eqb_refl. reflexivity.
        -- exists t. assumption.
    + eexists. apply in_or_app. right. left. reflexivity.
Qed.

(** A pending edge in the opposite direction is found by the existence check
    and is left pending: the acceptor then does not list the requester. *)
Example crossed_requests_leave_one_side_pending :
  let v := accept_friend_request "bob" "ann"
             (add_friend "ann" "bob"
                (add_friend "bob" "ann" (empty_world sample_clock))) in
  get_friends "ann" v = ["bob"] /\ get_friends "bob" v = [].
Proof. split; reflexivity. Qed.

End FriendGraph.

(** C1 (as the code has it): [add_friend u f] appends one pending edge whose
    [user] field is the requester [u] and whose [friend] field is the
    recipient [f], so the request shows up in [get_friend_requests f] as
    [u]; after [add_friend "bob" "ann"] on an empty store the incoming
    requests of "ann" contain "bob". *)
Theorem add_friend_lists_requester :
  forall (u f : string) (w : World),
    friends (add_friend u f w)
    = friends w ++ [mk_friend u f (utc w (ticks w)) pending]
    /\ In u (get_friend_requests f (add_friend u f w))
    /\ (forall clock,
           In "bob" (get_friend_requests "ann"
                       (add_friend "bob" "ann" (empty_world clock)))).
Proof.
  assert (H : forall u f w, In u (get_friend_requests f (add_friend u f w))).
  { intros u f w. apply FriendGraph.get_friend_requests_In.
    exists (utc w (ticks w)). rewrite FriendGraph.add_friend_rows.
    apply in_or_app. right. left. reflexivity. }
  intros u f w. split; [apply FriendGraph.add_friend_rows|].
  split; [apply H | intros clock; apply H].
Qed.

(** C1 as stated fails: after [add_friend "bob" "ann"] on an empty store the
    stored edge has user "bob" and friend "ann", and the incoming requests of
    "bob" do not contain "ann". *)
Lemma add_friend_bob_ann_not_incoming_of_bob :
  friends (add_friend "bob" "ann" (empty_world sample_clock))
  = [mk_friend "bob" "ann" (sample_clock 0) pending]
  /\ ~ In "ann" (get_friend_requests "bob"
                   (add_friend "bob" "ann" (empty_world sample_clock))).
Proof.
  split; [reflexivity|]. vm_compute. intros [].
Qed.

(** C2 (as the code has it): on any store in which [r] is among the
    incoming requests of [u] (a pending edge from [r] to [u], as
    [add_friend r u] creates), [accept_friend_request u r] turns that pending
    edge into an accepted one stamped with the current time, so
    [get_friends r] contains [u]; and when [u] is [r] or the store holds no
    pending edge from [u] to [r], an accepted edge from [u] to [r] exists
    afterwards, so [get_friends u] contains [r].  After
    [add_friend "ann" "bob"] and [accept_friend_request "bob" "ann"] on an
    empty store, each of the two lists the other. *)
Theorem accept_friend_request_makes_friends :
  forall (u r : string) (w : World),
    In r (get_friend_requests u w) ->
    let w2 := accept_friend_request u r w in
    In (mk_friend r u (utc w (ticks w)) accepted) (friends w2)
    /\ In u (get_friends r w2)
    /\ (u = r \/ existsb (is_pending_edge u r) (friends w) = false ->
        In r (get_friends u w2))
    /\ (forall clock,
           let v := accept_friend_request "bob" "ann"
                      (add_friend "ann" "bob" (empty_world clock)) in
           In "ann" (get_friends "bob" v) /\ In "bob" (get_friends "ann" v)).
Proof.
  intros u r w Hreq w2.
  destruct (FriendGraph.accept_pending u r w Hreq) as [Hflip Hmirror].
  fold w2 in Hflip, Hmirror.
  split; [exact Hflip|].
  split; [apply FriendGraph.get_friends_In; eexists; exact Hflip|].
  split.
  - intros Hside. apply FriendGraph.get_friends_In. apply Hmirror, Hside.
  - intros clock v.
    assert (Hin : In "ann" (get_friend_requests "bob"
                              (add_friend "ann" "bob" (empty_world clock)))).
    { apply FriendGraph.get_friend_requests_In. eexists.
      rewrite FriendGraph.add_friend_rows. apply in_or_app. right. left. reflexivity. }
    destruct (FriendGraph.accept_pending "bob" "ann" _ Hin) as [Hf Hm].
    fold v in Hf, Hm. split.
    + apply FriendGraph.get_friends_In. apply Hm. right. reflexivity.
    + apply FriendGraph.get_friends_In. eexists. exact Hf.
Qed.

(** "ann" and then "cat" have requested "bob", and "bob" accepts "ann": the
    accepted request is not the latest row of the store. *)
Lemma accept_friend_request_makes_friends_witness :
  let w := add_friend "cat" "bob"
             (add_friend "ann" "bob" (empty_world sample_clock)) in
  In "bob" (get_friends "ann" (accept_friend_request "bob" "ann" w))
  /\ In "ann" (get_friends "bob" (accept_friend_request "bob" "ann" w)).
Proof.
  intros w.
  assert (Hreq : In "ann" (get_friend_requests "bob" w))
    by (vm_compute; right; left; reflexivity).
  pose proof (accept_friend_request_makes_friends "bob" "ann" w Hreq) as H.
  cbv zeta in H. destruct H as (_ & H1 & H2 & _).
  split; [exact H1|]. apply H2. right. reflexivity.
Defined.

(** C2 as stated fails: after [add_friend "bob" "ann"] and
    [accept_friend_request "bob" "ann"] on an empty store the only edge is
    still pending, and neither user lists the other as a friend. *)
Lemma accept_bob_ann_after_bob_requests_no_friends :
  let v := accept_friend_request "bob" "ann"
             (add_friend "bob" "ann" (empty_world sample_clock)) in
  friends v = [mk_friend "bob" "ann" (sample_clock 0) pending]
  /\ ~ (In "ann" (get_friends "bob" v) /\ In "bob" (get_friends "ann" v)).
Proof.
  cbv zeta. split; [reflexivity|]. vm_compute. intros [[] _].
Qed.

(** * Achievement engine *)

Module Awards.

Lemma holds_true (u k : string) (a : ach_row) :
  holds u k a = true <-> a_user a = u /\ a_key a = k.
Proof. unfold holds. rewrite andb_true_iff, !String.eqb_eq. tauto. Qed.

Lemma has_achievement_In (u k : string) (w : World) :
  has_achievement u k w = true <-> In (u, k) (grants w).
Proof.
  unfold has_achievement, grants. rewrite existsb_exists, in_map_iff.
  split; intros (a & H1 & H2).
  - apply holds_true in H2. destruct H2 as [<- <-]. exists a. auto.
  - exists a. split; [assumption|]. apply holds_true. split; congruence.
Qed.

(** [_award] either finds the pair and changes nothing, or appends it. *)
Lemma award_held (u k r : string) (w : World) :
  has_achievement u k w = true -> _award u k r w = w.
Proof. unfold _award, has_achievement. intros ->. reflexivity. Qed.

Lemma award_rows (u k r : string) (w : World) :
  achievements (_award u k r w)
  = achievements w
      ++ (if has_achievement u k w then []
          else [mk_ach u k r (utc w (ticks w))]).
Proof.
  unfold _award, has_achievement. destruct (existsb _ _); simpl.
  - symmetry. apply app_nil_r.
  - reflexivity.
Qed.

Lemma award_ledger (u k r : string) (w : World) :
  leaderboard (_award u k r w) = leaderboard w.
Proof. unfold _award. destruct (existsb _ _); reflexivity. Qed.

Lemma award_gives (u k r : string) (w : World) :
  has_achievement u k (_award u k r w) = true.
Proof.
  destruct (has_achievement u k w) eqn:E.
  - rewrite award_held; assumption.
  - unfold has_achievement. rewrite award_rows, E, existsb_app. simpl.
    unfold holds. simpl. rewrite !String.eqb_refl. apply orb_true_r.
Qed.

Lemma award_keeps (u k r u' k' : string) (w : World) :
  has_achievement u' k' w = true ->
  has_achievement u' k' (_award u k r w) = true.
Proof.
  unfold has_achievement. intros H. rewrite award_rows, existsb_app, H.
  reflexivity.
Qed.

Lemma award_only (u k r u' k' : string) (w : World) :
  has_achievement u' k' (_award u k r w) = true ->
  has_achievement u' k' w = true \/ (u' = u /\ k' = k).
Proof.
  unfold has_achievement at 1. rewrite award_rows, existsb_app, orb_true_iff.
  intros [H|H]; [left; exact H|]. right.
  destruct (has_achievement u k w); simpl in H; [discriminate|].
  rewrite orb_false_r in H. apply holds_true in H. simpl in H.
  destruct H; split; congruence.
Qed.

Lemma award_unique (u k r : string) (w : World) :
  NoDup (grants w) -> NoDup (grants (_award u k r w)).
Proof.
  intros H. unfold grants. rewrite award_rows, map_app.
  destruct (has_achievement u k w) eqn:E; simpl.
  - rewrite app_nil_r. exact H.
  - apply NoDup_app.
    + exact H.
    + constructor; [intros [] | constructor].
    + intros x Hx [<-|[]]. apply has_achievement_In in Hx. congruence.
Qed.

(** The same facts for a whole sequence of attempts. *)
Lemma award_all_ledger (gs : list attempt) (w : World) :
  leaderboard (award_all gs w) = leaderboard w.
Proof.
  unfold award_all. revert w. induction gs as [|g gs IH]; intros w; simpl.
  - reflexivity.
  - rewrite IH. apply award_ledger.
Qed.

Lemma award_all_keeps (gs : list attempt) (u k : string) (w : World) :
  has_achievement u k w = true -> has_achievement u k (award_all gs w) = true.
Proof.
  unfold award_all. revert w. induction gs as [|g gs IH]; intros w H; simpl.
  - exact H.
  - apply IH, award_keeps, H.
Qed.

Lemma award_all_gives (gs : list attempt) (w : World) (g : attempt) :
  In g gs -> has_achievement (fst (fst g)) (snd (fst g)) (award_all gs w) = true.
Proof.
  revert w. induction gs as [|g' gs IH]; intros w Hin; [destruct Hin|].
  destruct Hin as [->|H]; simpl.
  - apply (award_all_keeps gs), award_gives.
  - apply IH, H.
Qed.

Lemma award_all_held (gs : list attempt) (w : World) :
  (forall g, In g gs -> has_achievement (fst (fst g)) (snd (fst g)) w = true) ->
  award_all gs w = w.
Proof.
  unfold award_all. induction gs as [|g gs IH]; intros H; simpl.
  - reflexivity.
  - rewrite award_held by (apply H; left; reflexivity).
    apply IH. intros g' Hg'. apply H. right. exact Hg'.
Qed.

Lemma award_all_only (gs : list attempt) (u k : string) (w : World) :
  has_achievement u k (award_all gs w) = true ->
  has_achievement u k w = true
  \/ exists g, In g gs /\ fst (fst g) = u /\ snd (fst g) = k.
Proof.
  unfold award_all. revert w. induction gs as [|g gs IH]; intros w H; simpl in H.
  - left. exact H.
  - destruct (IH _ H) as [H1 | (g' & Hin & Hu & Hk)].
    + destruct (award_only _ _ _ _ _ _ H1) as [H2 | [-> ->]].
      * left. exact H2.
      * right. exists g. simpl. auto.
    + right. exists g'. simpl. auto.
Qed.

Lemma award_all_unique (gs : list attempt) (w : World) :
  NoDup (grants w) -> NoDup (grants (award_all gs w)).
Proof.
  unfold award_all. revert w. induction gs as [|g gs IH]; intros w H; simpl.
  - exact H.
  - apply IH, award_unique, H.
Qed.

Lemma award_all_app (gs hs : list attempt) (w : World) :
  award_all (gs ++ hs) w = award_all hs (award_all gs w).
Proof. unfold award_all. apply fold_left_app. Qed.

(** A guarded loop of awards is the sequence of the attempts it lets through. *)
Lemma guarded_loop (c : Z -> bool) (f : Z -> attempt) (l : list Z) (w : World) :
  fold_left (fun w th => if c th
                         then _award (fst (fst (f th))) (snd (fst (f th))) (snd (f th)) w
                         else w) l w
  = award_all (map f (filter c l)) w.
Proof.
  unfold award_all. revert w. induction l as [|x l IH]; intros w; simpl.
  - reflexivity.
  - destruct (c x); simpl; apply IH.
Qed.

Lemma counted_loop (c : Z -> bool) (f : Z -> attempt) (l : list Z) (st : Z * World) :
  fold_left (fun st th => if c th
                          then (fst st + 1,
                                _award (fst (fst (f th))) (snd (fst (f th)))
                                       (snd (f th)) (snd st))
                          else st) l st
  = (fst st + Z.of_nat (List.length (filter c l)),
     award_all (map f (filter c l)) (snd st)).
Proof.
  unfold award_all. revert st. induction l as [|x l IH]; intros [n w]; simpl.
  - f_equal. lia.
  - destruct (c x); simpl; rewrite IH; simpl; f_equal; lia.
Qed.

Lemma maybe_award_attempts (user game : string) (score : Z) (w : World) :
  _maybe_award_achievements user game score w
  = award_all (score_attempts user game score
               ++ play_attempts user game
                    (Sql.count (filter (of_user_game user game) (leaderboard w))))
              w.
Proof.
  unfold _maybe_award_achievements, score_attempts, play_attempts.
  rewrite award_all_app.
  rewrite (guarded_loop (fun th => score >=? th)
             (fun th => (user, score_key game th, score_reason game th))).
  rewrite award_all_ledger.
  apply (guarded_loop _ (fun pth => (user, plays_key game pth, plays_reason game pth))).
Qed.

Lemma rescan_row_attempts (n : Z) (w : World) (r : scan_row) :
  rescan_row (n, w) r
  = (n + Z.of_nat (List.length (row_attempts r)), award_all (row_attempts r) w).
Proof.
  destruct r as [[[user game] ms] pl]. unfold rescan_row, row_attempts.
  rewrite (counted_loop (fun th => py_or0 ms >=? th)
             (fun th => (user, score_key game th, score_reason game th))).
  rewrite (counted_loop (fun pth => py_or0 (Some pl) >=? pth)
             (fun pth => (user, plays_key game pth, plays_reason game pth))).
  cbn [fst snd].
  rewrite award_all_app, length_app.
  unfold score_attempts, play_attempts, score_thresholds, play_thresholds.
  rewrite !length_map. f_equal. lia.
Qed.

Lemma rescan_loop (rows : list scan_row) (n : Z) (w : World) :
  fold_left rescan_row rows (n, w)
  = (n + Z.of_nat (List.length (flat_map row_attempts rows)),
     award_all (flat_map row_attempts rows) w).
Proof.
  revert n w. induction rows as [|r rows IH]; intros n w; simpl.
  - f_equal. lia.
  - rewrite rescan_row_attempts, IH, award_all_app, length_app. f_equal. lia.
Qed.

Lemma rescan_attempts_run (w : World) :
  rescan_achievements w
  = (Z.of_nat (List.length (rescan_attempts w)), award_all (rescan_attempts w) w).
Proof. unfold rescan_achievements, rescan_attempts. apply rescan_loop. Qed.

End Awards.

(** * Score ledger *)

Module Ledger.

Lemma of_user_game_true (u g : string) (r : score_row) :
  of_user_game u g r = true <-> l_user r = u /\ l_game r = g.
Proof. unfold of_user_game. rewrite andb_true_iff, !String.eqb_eq. tauto. Qed.

(** Maximum and sum of a list. *)
Lemma list_max_snoc (x y : Z) (t : list Z) :
  list_max x (t ++ [y]) = Z.max (list_max x t) y.
Proof. unfold list_max. rewrite fold_left_app. reflexivity. Qed.

Lemma list_max_lower (x : Z) (t : list Z) : x <= list_max x t.
Proof.
  unfold list_max. revert x. induction t as [|y t IH]; intros x; simpl.
  - lia.
  - specialize (IH (Z.max x y)). lia.
Qed.

Lemma list_max_upper (x : Z) (t : list Z) :
  Forall (fun y => y <= list_max x t) (x :: t).
Proof.
  constructor; [apply list_max_lower|].
  unfold list_max. revert x. induction t as [|y t IH]; intros x; simpl.
  - constructor.
  - constructor.
    + pose proof (list_max_lower (Z.max x y) t) as H. unfold list_max in H. lia.
    + apply IH.
Qed.

Lemma list_max_member (x : Z) (t : list Z) : In (list_max x t) (x :: t).
Proof.
  unfold list_max. revert x. induction t as [|y t IH]; intros x; simpl.
  - left. reflexivity.
  - destruct (IH (Z.max x y)) as [H|H].
    + destruct (Z.max_spec x y) as [[_ E]|[_ E]]; rewrite E in *; auto.
    + auto.
Qed.

Lemma fold_add (a : Z) (l : list Z) : fold_left Z.add l a = a + list_sum l.
Proof.
  revert a. induction l as [|x l IH]; intros a; simpl.
  - lia.
  - rewrite IH. lia.
Qed.

Lemma scores_of_values (rows : list score_row) :
  scores_of rows = map Some (map l_score rows).
Proof. unfold scores_of. rewrite map_map. reflexivity. Qed.

(** The aggregates of a (user, game) slice of the ledger. *)
Lemma max_of_events (u g : string) (w : World) :
  Sql.max (scores_of (events u g w))
  = if has_events u g w then Some (max_score_in u g w) else None.
Proof.
  unfold Sql.max, has_events, max_score_in, events.
  rewrite scores_of_values, SqlFacts.agg_values.
  induction (leaderboard w) as [|r l IH]; simpl; [reflexivity|].
  destruct (of_user_game u g r); simpl; [reflexivity | exact IH].
Qed.

Lemma best_is_max_score (u g : string) (w : World) :
  get_user_best_for_game u g w = max_score_in u g w.
Proof.
  unfold get_user_best_for_game. fold (events u g w). rewrite max_of_events.
  destruct (has_events u g w) eqn:E; [reflexivity|].
  unfold max_score_in, events, has_events in *.
  induction (leaderboard w) as [|r l IH]; simpl in *; [reflexivity|].
  destruct (of_user_game u g r); simpl in *; [discriminate | auto].
Qed.

Lemma has_events_plays (u g : string) (w : World) :
  has_events u g w = true <-> 0 < plays_in u g w.
Proof.
  unfold has_events, plays_in, events.
  induction (leaderboard w) as [|r l IH]; simpl.
  - split; [discriminate | lia].
  - destruct (of_user_game u g r); simpl; [|exact IH]. split; [lia | reflexivity].
Qed.

Lemma no_events_best (u g : string) (w : World) :
  has_events u g w = false -> max_score_in u g w = 0.
Proof.
  unfold has_events, max_score_in, events.
  induction (leaderboard w) as [|r l IH]; simpl; [reflexivity|].
  destruct (of_user_game u g r); simpl; [discriminate | exact IH].
Qed.

Lemma has_events_played (u g : string) (w : World) :
  has_events u g w = true <-> In (u, g) (pairs_played w).
Proof.
  unfold has_events, pairs_played. rewrite nodup_In, existsb_exists, in_map_iff.
  split; intros (r & H1 & H2).
  - apply of_user_game_true in H2. destruct H2 as [<- <-]. exists r. auto.
  - exists r. split; [assumption|]. apply of_user_game_true.
    split; congruence.
Qed.

(** What depends on the ledger only. *)
Lemma same_ledger_events (u g : string) (w w' : World) :
  leaderboard w' = leaderboard w -> events u g w' = events u g w.
Proof. unfold events. intros ->. reflexivity. Qed.

Lemma same_ledger_best (u g : string) (w w' : World) :
  leaderboard w' = leaderboard w -> max_score_in u g w' = max_score_in u g w.
Proof. unfold max_score_in, events. intros ->. reflexivity. Qed.

Lemma same_ledger_plays (u g : string) (w w' : World) :
  leaderboard w' = leaderboard w -> plays_in u g w' = plays_in u g w.
Proof. unfold plays_in, events. intros ->. reflexivity. Qed.

(** [record_score]: the ledger row, then the awards. *)
Lemma record_score_steps (game user : string) (score : Z) (w : World) :
  record_score game user score w
  = award_all (score_attempts user game score
               ++ play_attempts user game
                    (plays_in user game (with_score game user score w)))
              (with_score game user score w).
Proof.
  unfold record_score. simpl. rewrite Awards.maybe_award_attempts. reflexivity.
Qed.

Lemma record_score_ledger (game user : string) (score : Z) (w : World) :
  leaderboard (record_score game user score w)
  = leaderboard w ++ [mk_score game user score (utc w (ticks w))].
Proof. rewrite record_score_steps, Awards.award_all_ledger. reflexivity. Qed.

Lemma events_with_score (game user : string) (score : Z) (u g : string) (w : World) :
  events u g (with_score game user score w)
  = events u g w
      ++ (if of_user_game u g (mk_score game user score (utc w (ticks w)))
          then [mk_score game user score (utc w (ticks w))] else []).
Proof. unfold events, with_score. simpl. rewrite filter_app. reflexivity. Qed.

Lemma best_with_score (game user : string) (score : Z) (w : World) :
  max_score_in user game (with_score game user score w)
  = if has_events user game w
    then Z.max (max_score_in user game w) score
    else score.
Proof.
  unfold max_score_in. rewrite events_with_score.
  unfold of_user_game at 1. simpl. rewrite !String.eqb_refl. simpl.
  rewrite map_app. simpl. unfold has_events, events.
  induction (leaderboard w) as [|r l IH]; simpl; [reflexivity|].
  destruct (of_user_game user game r); simpl.
  - apply list_max_snoc.
  - exact IH.
Qed.

Lemma plays_with_score (game user : string) (score : Z) (w : World) :
  plays_in user game (with_score game user score w) = plays_in user game w + 1.
Proof.
  unfold plays_in. rewrite events_with_score.
  unfold of_user_game at 1. simpl. rewrite !String.eqb_refl. simpl.
  rewrite length_app. simpl. lia.
Qed.

Lemma other_with_score (game user : string) (score : Z) (u g : string) (w : World) :
  of_user_game u g (mk_score game user score (utc w (ticks w))) = false ->
  events u g (with_score game user score w) = events u g w.
Proof. intros H. rewrite events_with_score, H. apply app_nil_r. Qed.

End Ledger.

(** * Rescan *)

Module Rescan.

Lemma score_threshold_pos (th : Z) : In th score_thresholds -> 0 < th.
Proof. unfold score_thresholds. simpl. intros [<-|[<-|[]]]; lia. Qed.

Lemma play_threshold_pos (pth : Z) : In pth play_thresholds -> 0 < pth.
Proof. unfold play_thresholds. simpl. intros [<-|[<-|[<-|[]]]]; lia. Qed.

Lemma score_attempts_In (u g : string) (s : Z) (a : attempt) :
  In a (score_attempts u g s) <->
  exists th, In th score_thresholds /\ th <= s
             /\ a = (u, score_key g th, score_reason g th).
Proof.
  unfold score_attempts. rewrite in_map_iff. split.
  - intros (th & <- & H). apply filter_In in H. destruct H as [H1 H2].
    apply Z.geb_le in H2. exists th. auto.
  - intros (th & H1 & H2 & ->). exists th. split; [reflexivity|].
    apply filter_In. split; [assumption|]. apply Z.geb_le. assumption.
Qed.

Lemma play_attempts_In (u g : string) (c : Z) (a : attempt) :
  In a (play_attempts u g c) <->
  exists pth, In pth play_thresholds /\ pth <= c
              /\ a = (u, plays_key g pth, plays_reason g pth).
Proof.
  unfold play_attempts. rewrite in_map_iff. split.
  - intros (th & <- & H). apply filter_In in H. destruct H as [H1 H2].
    apply Z.geb_le in H2. exists th. auto.
  - intros (th & H1 & H2 & ->). exists th. split; [reflexivity|].
    apply filter_In. split; [assumption|]. apply Z.geb_le. assumption.
Qed.

(** The grouped query, pair by pair. *)
Lemma group_of_pair (u g : string) (l : list score_row) :
  filter (fun r => if pair_dec (l_user r, l_game r) (u, g) then true else false) l
  = filter (of_user_game u g) l.
Proof.
  apply filter_ext. intros r. unfold of_user_game.
  destruct (pair_dec (l_user r, l_game r) (u, g)) as [E|E].
  - inversion E. rewrite !String.eqb_refl. reflexivity.
  - symmetry. apply andb_false_iff.
    destruct (String.eqb_spec (l_user r) u), (String.eqb_spec (l_game r) g);
      auto. subst. contradiction E. reflexivity.
Qed.

Lemma rescan_rows_pairs (w : World) :
  rescan_rows w
  = map (fun p => (fst p, snd p,
                   Sql.max (scores_of (events (fst p) (snd p) w)),
                   Sql.count (events (fst p) (snd p) w)))
        (pairs_played w).
Proof.
  unfold rescan_rows, Sql.group_by, pairs_played, events. rewrite map_map.
  apply map_ext. intros [u g]. simpl. rewrite group_of_pair. reflexivity.
Qed.

Lemma or0_max (u g : string) (w : World) :
  py_or0 (Sql.max (scores_of (events u g w))) = max_score_in u g w.
Proof.
  rewrite Ledger.max_of_events. destruct (has_events u g w) eqn:E; simpl.
  - destruct (Z.eqb_spec (max_score_in u g w) 0); congruence.
  - symmetry. apply Ledger.no_events_best, E.
Qed.

Lemma or0_count (u g : string) (w : World) :
  py_or0 (Some (Sql.count (events u g w))) = plays_in u g w.
Proof.
  unfold py_or0, Sql.count, plays_in.
  destruct (Z.eqb_spec (Z.of_nat (List.length (events u g w))) 0); congruence.
Qed.

Lemma rescan_attempts_pairs (w : World) :
  rescan_attempts w
  = flat_map (fun p => pair_attempts (fst p) (snd p) w) (pairs_played w).
Proof.
  unfold rescan_attempts. rewrite rescan_rows_pairs.
  induction (pairs_played w) as [|[u g] l IH]; [reflexivity|].
  cbn [map flat_map fst snd]. rewrite IH. f_equal.
  unfold row_attempts, pair_attempts. rewrite or0_max, or0_count. reflexivity.
Qed.

Lemma rescan_attempts_ledger (w w' : World) :
  leaderboard w' = leaderboard w -> rescan_attempts w' = rescan_attempts w.
Proof. unfold rescan_attempts, rescan_rows. intros ->. reflexivity. Qed.

Lemma rescan_attempts_In (w : World) (a : attempt) :
  In a (rescan_attempts w) <->
  exists u g,
    (exists th, In th score_thresholds /\ th <= max_score_in u g w
                /\ a = (u, score_key g th, score_reason g th))
    \/ (exists pth, In pth play_thresholds /\ pth <= plays_in u g w
                    /\ a = (u, plays_key g pth, plays_reason g pth)).
Proof.
  rewrite rescan_attempts_pairs, in_flat_map. split.
  - intros ([u g] & _ & H). simpl in H. unfold pair_attempts in H.
    apply in_app_or in H. exists u, g.
    destruct H as [H|H]; [left; apply score_attempts_In in H
                         | right; apply play_attempts_In in H]; exact H.
  - intros (u & g & H). exists (u, g). simpl. unfold pair_attempts.
    rewrite in_app_iff, score_attempts_In, play_attempts_In.
    split; [|exact H]. apply Ledger.has_events_played.
    destruct H as [(th & Hth & Hle & _) | (pth & Hth & Hle & _)].
    + destruct (has_events u g w) eqn:E; [reflexivity|].
      apply Ledger.no_events_best in E. apply score_threshold_pos in Hth. lia.
    + apply Ledger.has_events_plays. apply play_threshold_pos in Hth. lia.
Qed.

(** Completeness is exactly: every attempt of a rescan is already held. *)
Lemma complete_iff_held (w : World) :
  complete w <->
  forall a, In a (rescan_attempts w) ->
            has_achievement (fst (fst a)) (snd (fst a)) w = true.
Proof.
  split.
  - intros [Hs Hp] a Ha. apply rescan_attempts_In in Ha.
    destruct Ha as (u & g & [(th & H1 & H2 & ->) | (pth & H1 & H2 & ->)]); simpl.
    + apply Hs; assumption.
    + apply Hp; assumption.
  - intros H. split.
    + intros u g th H1 H2.
      apply (H (u, score_key g th, score_reason g th)).
      apply rescan_attempts_In. exists u, g. left. exists th. auto.
    + intros u g pth H1 H2.
      apply (H (u, plays_key g pth, plays_reason g pth)).
      apply rescan_attempts_In. exists u, g. right. exists pth. auto.
Qed.

Lemma rescan_world (w : World) :
  snd (rescan_achievements w) = award_all (rescan_attempts w) w.
Proof. rewrite Awards.rescan_attempts_run. reflexivity. Qed.

Lemma rescan_ledger (w : World) :
  leaderboard (snd (rescan_achievements w)) = leaderboard w.
Proof. rewrite rescan_world. apply Awards.award_all_ledger. Qed.

Lemma rescan_complete (w : World) : complete (snd (rescan_achievements w)).
Proof.
  apply complete_iff_held. intros a Ha.
  rewrite (rescan_attempts_ledger w) in Ha by apply rescan_ledger.
  rewrite rescan_world. apply Awards.award_all_gives, Ha.
Qed.

Lemma rescan_of_complete (w : World) :
  complete w -> snd (rescan_achievements w) = w.
Proof.
  intros H. rewrite rescan_world. apply Awards.award_all_held.
  apply complete_iff_held, H.
Qed.

End Rescan.

(** * Counting the matches of a rescan *)

Module Counting.

Lemma filter_pairing_length {A B : Type} (P : A * B -> bool) (x : A) (l : list B) :
  List.length (filter P (map (fun y => (x, y)) l))
  = List.length (filter (fun y => P (x, y)) l).
Proof.
  induction l as [|y l IH]; simpl; [reflexivity|].
  destruct (P (x, y)); simpl; rewrite IH; reflexivity.
Qed.

(** Attempts made pair by pair against matches counted over the product. *)
Lemma per_pair_total (w : World) (ps : list (string * string)) :
  List.length (flat_map (fun p => pair_attempts (fst p) (snd p) w) ps)
  = Nat.add
      (List.length
         (filter (fun c => max_score_in (fst (fst c)) (snd (fst c)) w >=? snd c)
                 (list_prod ps [500; 1000])))
      (List.length
         (filter (fun c => plays_in (fst (fst c)) (snd (fst c)) w >=? snd c)
                 (list_prod ps [5; 10; 25]))).
Proof.
  induction ps as [|[u g] ps IH]; [reflexivity|].
  cbn [flat_map list_prod fst snd].
  rewrite !filter_app, !length_app, IH, !filter_pairing_length.
  unfold pair_attempts, score_attempts, play_attempts,
    score_thresholds, play_thresholds.
  rewrite length_app, !length_map. cbn [fst snd]. lia.
Qed.

Lemma attempts_are_matches (w : World) :
  Z.of_nat (List.length (rescan_attempts w)) = threshold_matches w.
Proof.
  rewrite Rescan.rescan_attempts_pairs, per_pair_total.
  unfold threshold_matches, score_matches, play_matches. lia.
Qed.

Lemma matches_ledger (w w' : World) :
  leaderboard w' = leaderboard w -> threshold_matches w' = threshold_matches w.
Proof.
  intros H. rewrite <- !attempts_are_matches.
  rewrite (Rescan.rescan_attempts_ledger w w' H). reflexivity.
Qed.

End Counting.

(** * Reachable stores *)

Module Reach.

Lemma exec_unique (w : World) (c : call) :
  NoDup (grants w) -> NoDup (grants (exec w c)).
Proof.
  intros H. destruct c as [n|u f|u r|g u s|]; simpl.
  - unfold add_user_if_not_exists. destruct (existsb _ _); exact H.
  - exact H.
  - unfold accept_friend_request. simpl. destruct (existsb _ _); exact H.
  - rewrite Ledger.record_score_steps. apply Awards.award_all_unique. exact H.
  - rewrite Rescan.rescan_world. apply Awards.award_all_unique. exact H.
Qed.

Lemma run_unique (cs : list call) (w : World) :
  NoDup (grants w) -> NoDup (grants (run cs w)).
Proof.
  unfold run. revert w. induction cs as [|c cs IH]; intros w H; simpl.
  - exact H.
  - apply IH, exec_unique, H.
Qed.

(** Thresholds met before a record stay met after it. *)
Lemma best_grows (game user : string) (score : Z) (u g : string) (th : Z) (w : World) :
  0 < th -> th <= max_score_in u g w ->
  th <= max_score_in u g (with_score game user score w).
Proof.
  intros Hpos Hle.
  destruct (of_user_game u g (mk_score game user score (utc w (ticks w)))) eqn:E.
  - apply Ledger.of_user_game_true in E. simpl in E. destruct E as [<- <-].
    rewrite Ledger.best_with_score.
    destruct (has_events user game w) eqn:Ev; [lia|].
    apply Ledger.no_events_best in Ev. lia.
  - unfold max_score_in. rewrite Ledger.other_with_score by exact E. exact Hle.
Qed.

Lemma plays_grow (game user : string) (score : Z) (u g : string) (w : World) :
  plays_in u g w <= plays_in u g (with_score game user score w).
Proof.
  unfold plays_in. rewrite Ledger.events_with_score, length_app. lia.
Qed.

Lemma best_covers_score (game user : string) (score : Z) (w : World) :
  score <= max_score_in user game (with_score game user score w).
Proof.
  rewrite Ledger.best_with_score. destruct (has_events user game w); lia.
Qed.

Lemma record_complete (game user : string) (score : Z) (w : World) :
  complete w -> complete (record_score game user score w).
Proof.
  intros [Hs Hp]. rewrite Ledger.record_score_steps.
  set (w2 := with_score game user score w).
  set (A := score_attempts user game score
            ++ play_attempts user game (plays_in user game w2)).
  assert (Hl : leaderboard (award_all A w2) = leaderboard w2)
    by apply Awards.award_all_ledger.
  split.
  - intros u g th Hth Hle.
    rewrite (Ledger.same_ledger_best u g w2 _ Hl) in Hle.
    destruct (of_user_game u g (mk_score game user score (utc w (ticks w)))) eqn:E.
    + apply Ledger.of_user_game_true in E. simpl in E. destruct E as [<- <-].
      unfold w2 in Hle. rewrite Ledger.best_with_score in Hle.
      assert (th <= score \/ th <= max_score_in user game w) as [H|H].
      { destruct (has_events user game w) eqn:Ev; [lia | left; exact Hle]. }
      * apply (Awards.award_all_gives A w2
                 (user, score_key game th, score_reason game th)).
        apply in_or_app. left. apply Rescan.score_attempts_In. exists th. auto.
      * apply Awards.award_all_keeps. apply (Hs user game th Hth H).
    + unfold w2, max_score_in in Hle.
      rewrite Ledger.other_with_score in Hle by exact E.
      apply Awards.award_all_keeps. apply (Hs u g th Hth Hle).
  - intros u g pth Hth Hle.
    rewrite (Ledger.same_ledger_plays u g w2 _ Hl) in Hle.
    destruct (of_user_game u g (mk_score game user score (utc w (ticks w)))) eqn:E.
    + apply Ledger.of_user_game_true in E. simpl in E. destruct E as [<- <-].
      apply (Awards.award_all_gives A w2
               (user, plays_key game pth, plays_reason game pth)).
      apply in_or_app. right. apply Rescan.play_attempts_In. exists pth. auto.
    + unfold w2, plays_in in Hle.
      rewrite Ledger.other_with_score in Hle by exact E.
      apply Awards.award_all_keeps. apply (Hp u g pth Hth Hle).
Qed.

Lemma record_justified (game user : string) (score : Z) (w : World) :
  justified w -> justified (record_score game user score w).
Proof.
  intros J u k H. rewrite Ledger.record_score_steps in *.
  set (w2 := with_score game user score w) in *.
  set (A := score_attempts user game score
            ++ play_attempts user game (plays_in user game w2)) in *.
  assert (Hl : leaderboard (award_all A w2) = leaderboard w2)
    by apply Awards.award_all_ledger.
  apply Awards.award_all_only in H.
  destruct H as [H | (a & Hin & Hu & Hk)].
  - destruct (J u k H) as (g & [(th & H1 & H2 & ->) | (pth & H1 & H2 & ->)]);
      exists g; [left; exists th | right; exists pth];
      (split; [assumption|]); (split; [|reflexivity]).
    + rewrite (Ledger.same_ledger_best u g w2 _ Hl).
      apply best_grows; [apply Rescan.score_threshold_pos|]; assumption.
    + rewrite (Ledger.same_ledger_plays u g w2 _ Hl).
      pose proof (plays_grow game user score u g w) as Hg. fold w2 in Hg. lia.
  - exists game. apply in_app_or in Hin. destruct Hin as [Hin|Hin].
    + apply Rescan.score_attempts_In in Hin.
      destruct Hin as (th & H1 & H2 & ->). simpl in Hu, Hk. subst u k.
      left. exists th. split; [assumption|]. split; [|reflexivity].
      rewrite (Ledger.same_ledger_best user game w2 _ Hl).
      pose proof (best_covers_score game user score w) as Hg. fold w2 in Hg. lia.
    + apply Rescan.play_attempts_In in Hin.
      destruct Hin as (pth & H1 & H2 & ->). simpl in Hu, Hk. subst u k.
      right. exists pth. split; [assumption|]. split; [|reflexivity].
      rewrite (Ledger.same_ledger_plays user game w2 _ Hl). exact H2.
Qed.

Lemma empty_complete (clock : nat -> timestamp) : complete (empty_world clock).
Proof.
  split.
  - intros u g th H Hle. apply Rescan.score_threshold_pos in H.
    unfold max_score_in in Hle. simpl in Hle. lia.
  - intros u g pth H Hle. apply Rescan.play_threshold_pos in H.
    unfold plays_in in Hle. simpl in Hle. lia.
Qed.

Lemma empty_justified (clock : nat -> timestamp) : justified (empty_world clock).
Proof. intros u k H. discriminate H. Qed.

Lemma records_invariant (cs : list (string * string * Z)) (w : World) :
  complete w /\ justified w ->
  complete (run (record_calls cs) w) /\ justified (run (record_calls cs) w).
Proof.
  unfold run. revert w. induction cs as [|[[g u] s] cs IH]; intros w [Hc Hj]; simpl.
  - auto.
  - apply IH. split; [apply record_complete | apply record_justified]; assumption.
Qed.

End Reach.

(** C4: in every store reached from the empty one by calls of the helpers
    (among them every sequence of [record_score] and [rescan_achievements]
    calls) no two achievement rows share their (user, key) pair; and after
    recording 600 for "ann" in "Snake" twice, exactly one row grants
    "Snake_score_500" to "ann". *)
Theorem achievements_never_duplicate :
  forall (clock : nat -> timestamp) (cs : list call),
    NoDup (grants (run cs (empty_world clock)))
    /\ List.length
         (filter (holds "ann" "Snake_score_500")
                 (achievements
                    (run [RecordScore "Snake" "ann" 600; RecordScore "Snake" "ann" 600]
                         (empty_world clock))))
       = 1%nat.
Proof.
  intros clock cs. split.
  - apply Reach.run_unique. constructor.
  - reflexivity.
Qed.

(** C5: a second [rescan_achievements] right after a first one changes
    nothing: the achievements table (indeed the whole store) after the second
    call is the one left by the first. *)
Theorem rescan_twice_is_rescan_once :
  forall w : World,
    let w1 := snd (rescan_achievements w) in
    let w2 := snd (rescan_achievements w1) in
    achievements w2 = achievements w1 /\ w2 = w1.
Proof.
  intros w w1 w2.
  assert (E : w2 = w1) by apply Rescan.rescan_of_complete, Rescan.rescan_complete.
  rewrite E. auto.
Qed.

(** C6: the integer [rescan_achievements] returns is the number of (user,
    game, threshold) combinations of the ledger whose best score meets a
    score threshold plus those whose number of events meets a play
    threshold.  It counts matches, not new rows: a second run returns the
    same number although it adds no row. *)
Theorem rescan_returns_threshold_matches :
  forall w : World,
    let w1 := snd (rescan_achievements w) in
    fst (rescan_achievements w) = threshold_matches w
    /\ fst (rescan_achievements w1) = threshold_matches w
    /\ achievements (snd (rescan_achievements w1)) = achievements w1.
Proof.
  intros w w1.
  assert (H : forall v, fst (rescan_achievements v) = threshold_matches v).
  { intros v. rewrite Awards.rescan_attempts_run. apply Counting.attempts_are_matches. }
  split; [apply H|]. split.
  - rewrite H. apply Counting.matches_ledger, Rescan.rescan_ledger.
  - rewrite Rescan.rescan_of_complete by apply Rescan.rescan_complete. reflexivity.
Qed.

(** C9: after any sequence of [record_score] calls on an empty store a
    rescan inserts nothing (it leaves the store as it is), and the (user,
    key) pairs granted along the way are exactly those a rescan derives from
    the final ledger alone. *)
Theorem recording_subsumes_rescan :
  forall (clock : nat -> timestamp) (cs : list (string * string * Z)),
    let w := run (record_calls cs) (empty_world clock) in
    snd (rescan_achievements w) = w
    /\ forall u k,
         has_achievement u k w
         = has_achievement u k (snd (rescan_achievements (without_achievements w))).
Proof.
  intros clock cs w.
  destruct (Reach.records_invariant cs (empty_world clock)) as [Hc Hj].
  { split; [apply Reach.empty_complete | apply Reach.empty_justified]. }
  fold w in Hc, Hj. split; [apply Rescan.rescan_of_complete, Hc|].
  intros u k. apply Bool.eq_iff_eq_true.
  rewrite Rescan.rescan_world.
  assert (Hl : leaderboard (without_achievements w) = leaderboard w) by reflexivity.
  rewrite (Rescan.rescan_attempts_ledger w _ Hl). split.
  - intros H. destruct (Hj u k H) as (g & Hg).
    destruct Hg as [(th & H1 & H2 & ->) | (pth & H1 & H2 & ->)].
    + apply (Awards.award_all_gives (rescan_attempts w) _
               (u, score_key g th, score_reason g th)).
      apply Rescan.rescan_attempts_In. exists u, g. left. exists th. auto.
    + apply (Awards.award_all_gives (rescan_attempts w) _
               (u, plays_key g pth, plays_reason g pth)).
      apply Rescan.rescan_attempts_In. exists u, g. right. exists pth. auto.
  - intros H. apply Awards.award_all_only in H.
    destruct H as [H | (a & Hin & <- & <-)]; [discriminate H|].
    apply (proj1 (Rescan.complete_iff_held w) Hc a Hin).
Qed.

(** * Ranking *)

Module Ranking.

Lemma group_of_player (v g : string) (l : list score_row) :
  filter (fun r => if string_dec (l_user r) v then true else false)
         (filter (fun r => l_game r =? g)%string l)
  = filter (of_user_game v g) l.
Proof.
  induction l as [|r l IH]; simpl; [reflexivity|].
  unfold of_user_game in *.
  destruct (String.eqb_spec (l_game r) g) as [Eg|Eg]; simpl.
  - destruct (string_dec (l_user r) v) as [Eu|Eu];
      destruct (String.eqb_spec (l_user r) v) as [Eu'|Eu']; try contradiction;
      simpl; rewrite IH; reflexivity.
  - rewrite andb_false_r. exact IH.
Qed.

Lemma players_have_events (v g : string) (w : World) :
  In v (players g w) <-> has_events v g w = true.
Proof.
  unfold players, has_events. rewrite nodup_In, in_map_iff, existsb_exists.
  split; intros (r & H1 & H2).
  - apply filter_In in H2. destruct H2 as [Hin Hg]. apply String.eqb_eq in Hg.
    exists r. split; [assumption|]. apply Ledger.of_user_game_true. auto.
  - apply Ledger.of_user_game_true in H2. destruct H2 as [Hu Hg].
    exists r. split; [assumption|]. apply filter_In. split; [assumption|].
    apply String.eqb_eq. assumption.
Qed.

(** The grouped query of [get_rank_for_game]: one row per player. *)
Lemma bests_per_player (g : string) (w : World) :
  map (fun grp => (fst grp, Sql.max (scores_of (snd grp))))
      (Sql.group_by string_dec l_user
         (filter (fun r => l_game r =? g)%string (leaderboard w)))
  = map (fun v => (v, Some (max_score_in v g w))) (players g w).
Proof.
  unfold Sql.group_by. rewrite map_map. fold (players g w).
  apply map_ext_in. intros v Hv. simpl. rewrite group_of_player.
  fold (events v g w). rewrite Ledger.max_of_events.
  apply players_have_events in Hv. rewrite Hv. reflexivity.
Qed.

Lemma filter_map_length {A B : Type} (P : B -> bool) (f : A -> B) (l : list A) :
  List.length (filter P (map f l)) = List.length (filter (fun x => P (f x)) l).
Proof.
  induction l as [|x l IH]; simpl; [reflexivity|].
  destruct (P (f x)); simpl; rewrite IH; reflexivity.
Qed.

Lemma rank_value (u g : string) (w : World) :
  get_rank_for_game u g w
  = if has_events u g w
    then Some (1 + Z.of_nat
                     (List.length
                        (filter (fun v => max_score_in v g w >? max_score_in u g w)
                                (players g w))))
    else None.
Proof.
  unfold get_rank_for_game. fold (events u g w). rewrite Ledger.max_of_events.
  destruct (has_events u g w); [|reflexivity].
  rewrite bests_per_player. unfold Sql.count. rewrite filter_map_length.
  cbn [snd exceeds]. f_equal. lia.
Qed.

End Ranking.

(** C3: [get_rank_for_game u g] is [None] when [u] has no event in [g];
    otherwise it is 1 plus the number of distinct users whose best score in
    [g] is strictly above the best score of [u].  Two users with events in
    [g] and the same best score get the same rank. *)
Theorem rank_is_one_plus_strictly_better :
  forall (u g : string) (w : World),
    get_rank_for_game u g w
    = (if has_events u g w
       then Some (1 + Z.of_nat
                        (List.length
                           (filter (fun v => max_score_in v g w >? max_score_in u g w)
                                   (players g w))))
       else None)
    /\ NoDup (players g w)
    /\ (forall v, In v (players g w) <-> has_events v g w = true)
    /\ (forall v, has_events u g w = true -> has_events v g w = true ->
                  max_score_in u g w = max_score_in v g w ->
                  get_rank_for_game u g w = get_rank_for_game v g w).
Proof.
  intros u g w. split; [apply Ranking.rank_value|].
  split; [apply NoDup_nodup|].
  split; [intros v; apply Ranking.players_have_events|].
  intros v Hu Hv E. rewrite !Ranking.rank_value, Hu, Hv, E. reflexivity.
Qed.

(** "ann" and "bob" tie at 700 in "Snake" and share their rank. *)
Lemma rank_is_one_plus_strictly_better_witness :
  let w := run [RecordScore "Snake" "ann" 700; RecordScore "Snake" "bob" 700;
                RecordScore "Snake" "cat" 100] (empty_world sample_clock) in
  get_rank_for_game "ann" "Snake" w = get_rank_for_game "bob" "Snake" w.
Proof.
  cbv zeta.
  apply (rank_is_one_plus_strictly_better "ann" "Snake"
           (run [RecordScore "Snake" "ann" 700; RecordScore "Snake" "bob" 700;
                 RecordScore "Snake" "cat" 100] (empty_world sample_clock)));
    reflexivity.
Defined.

(** * Totals and bests of recorded scores *)

Module Totals.

Lemma no_match_filter {A : Type} (p : A -> bool) (l : list A) :
  existsb p l = false -> filter p l = [].
Proof.
  induction l as [|x l IH]; simpl; [reflexivity|].
  destruct (p x); simpl; [discriminate | exact IH].
Qed.


Lemma or_zero_summed (l : list Z) : or_zero (summed l) = list_sum l.
Proof. destruct l; reflexivity. Qed.

Lemma game_total_sum (u g : string) (w : World) :
  get_user_game_total u g w
  = if forallb int64 (running 0 (map l_score (events u g w)))
    then Returns (list_sum (map l_score (events u g w)))
    else Raises.
Proof.
  unfold get_user_game_total. fold (events u g w).
  rewrite Ledger.scores_of_values, Sums.sum_exact.
  destruct (forallb int64 _); [|reflexivity].
  simpl. rewrite or_zero_summed. reflexivity.
Qed.

End Totals.




(** C10: for a user without any score event, [get_user_total],
    [get_user_game_total] for every game and [get_user_overall_by_bests] all
    return the integer 0. *)
Theorem totals_are_zero_without_scores :
  forall (user : string) (w : World),
    has_scores user w = false ->
    get_user_total user w = Returns 0
    /\ (forall game, get_user_game_total user game w = Returns 0)
    /\ get_user_overall_by_bests user w = Returns 0.
Proof.
  intros user w H. unfold has_scores in H.
  pose proof (Totals.no_match_filter _ _ H) as E.
  split; [|split].
  - unfold get_user_total. rewrite E. reflexivity.
  - intros game. unfold get_user_game_total.
    rewrite Totals.no_match_filter; [reflexivity|].
    apply not_true_is_false. intros Hex. apply existsb_exists in Hex.
    destruct Hex as (r & Hin & Hr). apply Ledger.of_user_game_true in Hr.
    assert (existsb (fun r => l_user r =? user)%string (leaderboard w) = true)
      as Hy; [|congruence].
    apply existsb_exists. exists r. split; [assumption|].
    apply String.eqb_eq. tauto.
  - unfold get_user_overall_by_bests. rewrite E. reflexivity.
Qed.

(** "bob" has no score in a ledger that holds one score of "ann". *)
Lemma totals_are_zero_without_scores_witness :
  let w := record_score "Snake" "ann" 600 (empty_world sample_clock) in
  get_user_total "bob" w = Returns 0
  /\ (forall game, get_user_game_total "bob" game w = Returns 0)
  /\ get_user_overall_by_bests "bob" w = Returns 0.
Proof.
  cbv zeta.
  apply (totals_are_zero_without_scores "bob"
           (record_score "Snake" "ann" 600 (empty_world sample_clock))).
  reflexivity.
Defined.

(** * Overall leaderboard by bests *)

Module Bests.

Lemma int_desc_total (a b : option Z) :
  Sql.int_desc a b = true \/ Sql.int_desc b a = true.
Proof.
  destruct a as [x|], b as [y|]; simpl; auto.
  destruct (Z.leb_spec y x); [left; reflexivity | right; apply Z.leb_le; lia].
Qed.

Lemma int_desc_trans (a b c : option Z) :
  Sql.int_desc a b = true -> Sql.int_desc b c = true -> Sql.int_desc a c = true.
Proof.
  destruct a as [x|], b as [y|], c as [z|]; simpl; try congruence.
  rewrite !Z.leb_le. lia.
Qed.

Lemma sorted_within {A : Type} (R R' : A -> A -> Prop) (l : list A) :
  (forall a b, In a l -> In b l -> R a b -> R' a b) ->
  StronglySorted R l -> StronglySorted R' l.
Proof.
  intros HR H. induction H as [|x t Hs IH Hx]; constructor.
  - apply IH. intros a b Ha Hb. apply HR; right; assumption.
  - rewrite Forall_forall in *. intros y Hy.
    apply HR; [left; reflexivity | right; assumption | apply Hx, Hy].
Qed.

















End Bests.




(** * What a call leaves alone *)

Module Frames.

Lemma award_users (u k r : string) (w : World) : users (_award u k r w) = users w.
Proof. unfold _award. destruct (existsb _ _); reflexivity. Qed.

Lemma award_friends (u k r : string) (w : World) :
  friends (_award u k r w) = friends w.
Proof. unfold _award. destruct (existsb _ _); reflexivity. Qed.

Lemma award_all_users (gs : list attempt) (w : World) :
  users (award_all gs w) = users w.
Proof.
  unfold award_all. revert w. induction gs as [|g gs IH]; intros w; simpl.
  - reflexivity.
  - rewrite IH. apply award_users.
Qed.

Lemma award_all_friends (gs : list attempt) (w : World) :
  friends (award_all gs w) = friends w.
Proof.
  unfold award_all. revert w. induction gs as [|g gs IH]; intros w; simpl.
  - reflexivity.
  - rewrite IH. apply award_friends.
Qed.

Lemma award_all_rows (gs : list attempt) (w : World) :
  exists extra,
    achievements (award_all gs w) = achievements w ++ extra
    /\ (List.length extra <= List.length gs)%nat.
Proof.
  unfold award_all. revert w. induction gs as [|g gs IH]; intros w; simpl.
  - exists []. rewrite app_nil_r. auto.
  - destruct (IH (_award (fst (fst g)) (snd (fst g)) (snd g) w)) as (ex & E & L).
    rewrite E, Awards.award_rows, <- app_assoc.
    eexists. split; [reflexivity|]. rewrite length_app.
    destruct (has_achievement _ _ w); simpl; lia.
Qed.

Lemma exec_users (w : World) (c : call) :
  users (exec w c) = users w
  \/ exists n, c = AddUser n /\ registered n w = false
               /\ users (exec w c) = users w ++ [mk_user n (utc w (ticks w))].
Proof.
  destruct c as [n|u f|u r|g u s|]; simpl.
  - unfold add_user_if_not_exists. destruct (existsb _ _) eqn:E; [left; reflexivity|].
    right. exists n. auto.
  - left. reflexivity.
  - left. unfold accept_friend_request. simpl. destruct (existsb _ _); reflexivity.
  - left. rewrite Ledger.record_score_steps, award_all_users. reflexivity.
  - left. rewrite Rescan.rescan_world. apply award_all_users.
Qed.

Lemma exec_ledger (w : World) (c : call) :
  exists extra, leaderboard (exec w c) = leaderboard w ++ extra.
Proof.
  destruct c as [n|u f|u r|g u s|]; simpl.
  - exists []. rewrite app_nil_r. unfold add_user_if_not_exists.
    destruct (existsb _ _); reflexivity.
  - exists []. rewrite app_nil_r. reflexivity.
  - exists []. rewrite app_nil_r. unfold accept_friend_request. simpl.
    destruct (existsb _ _); reflexivity.
  - eexists. apply Ledger.record_score_ledger.
  - exists []. rewrite app_nil_r. apply Rescan.rescan_ledger.
Qed.

Lemma exec_achievements (w : World) (c : call) :
  exists extra, achievements (exec w c) = achievements w ++ extra.
Proof.
  destruct c as [n|u f|u r|g u s|]; simpl.
  - exists []. rewrite app_nil_r. unfold add_user_if_not_exists.
    destruct (existsb _ _); reflexivity.
  - exists []. rewrite app_nil_r. reflexivity.
  - exists []. rewrite app_nil_r. unfold accept_friend_request. simpl.
    destruct (existsb _ _); reflexivity.
  - rewrite Ledger.record_score_steps.
    destruct (award_all_rows
                (score_attempts u g s
                 ++ play_attempts u g (plays_in u g (with_score g u s w)))
                (with_score g u s w)) as (ex & E & _).
    exists ex. exact E.
  - rewrite Rescan.rescan_world.
    destruct (award_all_rows (rescan_attempts w) w) as (ex & E & _).
    exists ex. exact E.
Qed.

Lemma exec_friends_count (w : World) (c : call) :
  (List.length (friends w) <= List.length (friends (exec w c)))%nat.
Proof.
  destruct c as [n|u f|u r|g u s|]; cbn [exec].
  - unfold add_user_if_not_exists. destruct (existsb _ _); simpl; lia.
  - unfold add_friend. simpl. rewrite length_app. lia.
  - rewrite FriendGraph.accept_rows. cbv zeta. unfold promoted.
    destruct (existsb _ _); rewrite ?length_app, length_map; lia.
  - rewrite Ledger.record_score_steps, award_all_friends. simpl. lia.
  - rewrite Rescan.rescan_world, award_all_friends. lia.
Qed.

End Frames.

(** Nothing is deleted or rewritten in the users, leaderboard and
    achievements tables: along any sequence of calls each of them only gets
    rows appended, and the friends table never shrinks. *)
Theorem tables_only_grow :
  forall (cs : list call) (w : World),
    (exists us, users (run cs w) = users w ++ us)
    /\ (exists ls, leaderboard (run cs w) = leaderboard w ++ ls)
    /\ (exists acs, achievements (run cs w) = achievements w ++ acs)
    /\ (List.length (friends w) <= List.length (friends (run cs w)))%nat.
Proof.
  unfold run. intros cs. induction cs as [|c cs IH]; intros w; simpl.
  - repeat split; try (exists []; rewrite app_nil_r; reflexivity). lia.
  - destruct (IH (exec w c)) as ((us & Eu) & (ls & El) & (acs & Ea) & Hf).
    split; [|split; [|split]].
    + destruct (Frames.exec_users w c) as [E | (n & _ & _ & E)]; rewrite Eu, E.
      * exists us. reflexivity.
      * eexists. rewrite <- app_assoc. reflexivity.
    + destruct (Frames.exec_ledger w c) as (ex & E). rewrite El, E.
      eexists. rewrite <- app_assoc. reflexivity.
    + destruct (Frames.exec_achievements w c) as (ex & E). rewrite Ea, E.
      eexists. rewrite <- app_assoc. reflexivity.
    + pose proof (Frames.exec_friends_count w c). lia.
Qed.

(** * User registry *)

Module Registry.

Lemma registered_In (n : string) (w : World) :
  registered n w = true <-> In n (map username (users w)).
Proof.
  unfold registered. rewrite existsb_exists, in_map_iff.
  split; intros (r & H1 & H2).
  - apply String.eqb_eq in H2. exists r. auto.
  - exists r. split; [assumption|]. apply String.eqb_eq. assumption.
Qed.

Lemma exec_unique_names (w : World) (c : call) :
  NoDup (map username (users w)) -> NoDup (map username (users (exec w c))).
Proof.
  intros H. destruct (Frames.exec_users w c) as [E | (n & _ & Hn & E)]; rewrite E.
  - exact H.
  - rewrite map_app. apply NoDup_app; [exact H | |].
    + constructor; [intros [] | constructor].
    + intros x Hx [<-|[]]. apply registered_In in Hx. simpl in Hx. congruence.
Qed.

End Registry.

(** [add_user_if_not_exists] registers the user and is idempotent: a second
    call with the same name leaves the store of the first call untouched. *)
Theorem add_user_registers_once :
  forall (n : string) (w : World),
    registered n (add_user_if_not_exists n w) = true
    /\ add_user_if_not_exists n (add_user_if_not_exists n w)
       = add_user_if_not_exists n w
    /\ (registered n w = true -> add_user_if_not_exists n w = w).
Proof.
  intros n w.
  assert (R : registered n (add_user_if_not_exists n w) = true).
  { unfold add_user_if_not_exists. destruct (existsb _ (users w)) eqn:E.
    - exact E.
    - unfold registered. simpl. rewrite existsb_app. simpl.
      rewrite String.eqb_refl. apply orb_true_r. }
  split; [exact R|]. split.
  - unfold registered in R. unfold add_user_if_not_exists at 1. rewrite R. reflexivity.
  - unfold registered, add_user_if_not_exists. intros ->. reflexivity.
Qed.

(** A user registered twice while already present. *)
Lemma add_user_registers_once_witness :
  add_user_if_not_exists "ann" (add_user_if_not_exists "ann" (empty_world sample_clock))
  = add_user_if_not_exists "ann" (empty_world sample_clock).
Proof.
  apply (add_user_registers_once "ann"
           (add_user_if_not_exists "ann" (empty_world sample_clock))).
  reflexivity.
Defined.

(** In every store reached from the empty one no username occurs twice in
    the users table, although the helpers never rely on the UNIQUE
    constraint. *)
Theorem usernames_stay_unique :
  forall (clock : nat -> timestamp) (cs : list call),
    NoDup (map username (users (run cs (empty_world clock)))).
Proof.
  intros clock cs.
  assert (H : forall w, NoDup (map username (users w)) ->
                        NoDup (map username (users (run cs w)))).
  { unfold run. induction cs as [|c cs IH]; intros w Hw; simpl.
    - exact Hw.
    - apply IH, Registry.exec_unique_names, Hw. }
  apply H. constructor.
Qed.

(** * More on the friend graph *)

Module Friendship.

Lemma promoted_keeps_others (user requester : string) (now : timestamp)
      (rows : list friend_row) (e : friend_row) :
  In e rows -> is_pending_edge requester user e = false ->
  In e (promoted user requester now rows).
Proof.
  intros Hin Hp. unfold promoted. apply in_map_iff. exists e.
  rewrite Hp. auto.
Qed.

Lemma promoted_no_pending (user requester : string) (now : timestamp)
      (rows : list friend_row) (e : friend_row) :
  In e (promoted user requester now rows) ->
  is_pending_edge requester user e = false.
Proof.
  unfold promoted. rewrite in_map_iff. intros (r & <- & _).
  destruct (is_pending_edge requester user r) eqn:E; [|exact E].
  unfold is_pending_edge. simpl. apply andb_false_r.
Qed.

Lemma promoted_fixed (user requester : string) (now : timestamp)
      (rows : list friend_row) :
  (forall e, In e rows -> is_pending_edge requester user e = false) ->
  promoted user requester now rows = rows.
Proof.
  intros H. unfold promoted. rewrite <- (map_id rows) at 2.
  apply map_ext_in. intros e He. rewrite (H e He). reflexivity.
Qed.

(** After [accept_friend_request user requester] no pending edge from
    [requester] to [user] is left, and an edge from [user] to [requester]
    exists. *)
Lemma accepted_rows (user requester : string) (w : World) :
  (forall e, In e (friends (accept_friend_request user requester w)) ->
             is_pending_edge requester user e = false)
  /\ existsb (is_edge user requester)
             (friends (accept_friend_request user requester w)) = true.
Proof.
  rewrite FriendGraph.accept_rows. cbv zeta.
  destruct (existsb (is_edge user requester) _) eqn:E.
  - split; [|exact E]. intros e. apply promoted_no_pending.
  - split.
    + intros e He. apply in_app_or in He. destruct He as [He | [<- | []]].
      * eapply promoted_no_pending, He.
      * unfold is_pending_edge. simpl. apply andb_false_r.
    + rewrite existsb_app. simpl. unfold is_edge. simpl.
      rewrite !String.eqb_refl. simpl. apply orb_true_r.
Qed.

Lemma exec_keeps_accepted (w : World) (c : call) (e : friend_row) :
  f_status e = accepted -> In e (friends w) -> In e (friends (exec w c)).
Proof.
  intros Hs Hin. destruct c as [n|u f|u r|g u s|]; cbn [exec].
  - unfold add_user_if_not_exists. destruct (existsb _ _); exact Hin.
  - rewrite FriendGraph.add_friend_rows. apply in_or_app. left. exact Hin.
  - rewrite FriendGraph.accept_rows. cbv zeta.
    assert (In e (promoted u r (utc w (ticks w)) (friends w))) as Hp.
    { apply promoted_keeps_others; [exact Hin|].
      unfold is_pending_edge. rewrite Hs. apply andb_false_r. }
    destruct (existsb _ _); [exact Hp | apply in_or_app; left; exact Hp].
  - rewrite Ledger.record_score_steps, Frames.award_all_friends. exact Hin.
  - rewrite Rescan.rescan_world, Frames.award_all_friends. exact Hin.
Qed.

Lemma count_after_order {A : Type} (dec : forall a b : string, {a = b} + {a <> b})
      (before : A -> A -> bool) (f : A -> string) (l : list A) (x : string) :
  count_occ dec (map f (Sql.order_by before l)) x = count_occ dec (map f l) x.
Proof.
  apply Permutation_count_occ, Permutation_map, SqlFacts.order_by_perm.
Qed.

End Friendship.

(** Requests are not deduplicated: every [add_friend u f] adds one more
    occurrence of [u] to the incoming requests of [f], whatever the store
    already holds. *)
Theorem add_friend_repeats_are_listed :
  forall (u f : string) (w : World),
    count_occ string_dec (get_friend_requests f (add_friend u f w)) u
    = S (count_occ string_dec (get_friend_requests f w) u).
Proof.
  intros u f w. unfold get_friend_requests.
  rewrite !Friendship.count_after_order, FriendGraph.add_friend_rows, filter_app.
  simpl. rewrite String.eqb_refl. simpl.
  rewrite map_app, count_occ_app. simpl.
  destruct (string_dec u u); [lia | congruence].
Qed.

(** Accepting clears the request: after [accept_friend_request u r] the
    incoming requests of [u] no longer contain [r], however many times [r]
    had asked. *)
Theorem accepted_request_is_no_longer_listed :
  forall (u r : string) (w : World),
    count_occ string_dec (get_friend_requests u (accept_friend_request u r w)) r
    = 0%nat.
Proof.
  intros u r w. apply count_occ_not_In. intros H.
  apply FriendGraph.get_friend_requests_In in H. destruct H as (t & Hin).
  apply (proj1 (Friendship.accepted_rows u r w)) in Hin.
  unfold is_pending_edge in Hin. simpl in Hin.
  rewrite !String.eqb_refl in Hin. discriminate.
Qed.

(** [accept_friend_request] is idempotent on the friends table: a second
    call with the same arguments changes no row and adds none. *)
Theorem accept_twice_changes_nothing :
  forall (u r : string) (w : World),
    friends (accept_friend_request u r (accept_friend_request u r w))
    = friends (accept_friend_request u r w).
Proof.
  intros u r w. destruct (Friendship.accepted_rows u r w) as [Hnp Hex].
  rewrite (FriendGraph.accept_rows u r (accept_friend_request u r w)). cbv zeta.
  rewrite Friendship.promoted_fixed by exact Hnp.
  rewrite Hex. reflexivity.
Qed.

(** Accepting a request nobody made creates a one-sided friendship: with no
    edge between two distinct users in either direction,
    [accept_friend_request u r] inserts the single accepted edge from [u] to
    [r], so [u] lists [r] as a friend while [r] does not list [u]. *)
Theorem accept_without_request_is_one_sided :
  forall (u r : string) (w : World),
    (u =? r)%string = false ->
    existsb (is_edge u r) (friends w) = false ->
    existsb (is_edge r u) (friends w) = false ->
    let v := accept_friend_request u r w in
    friends v = friends w ++ [mk_friend u r (utc w (S (ticks w))) accepted]
    /\ In r (get_friends u v)
    /\ ~ In u (get_friends r v).
Proof.
  intros u r w Hne Hur Hru v.
  assert (Hfix : promoted u r (utc w (ticks w)) (friends w) = friends w).
  { apply Friendship.promoted_fixed. intros e He.
    destruct (is_pending_edge r u e) eqn:E; [|reflexivity].
    apply FriendGraph.is_pending_edge_true in E. destruct E as (E1 & E2 & _).
    assert (existsb (is_edge r u) (friends w) = true) as Hx; [|congruence].
    apply existsb_exists. exists e. split; [exact He|].
    apply FriendGraph.is_edge_true. auto. }
  assert (E : friends v
              = friends w ++ [mk_friend u r (utc w (S (ticks w))) accepted]).
  { unfold v. rewrite FriendGraph.accept_rows. cbv zeta.
    rewrite Hfix, Hur. reflexivity. }
  split; [exact E|]. split.
  - apply FriendGraph.get_friends_In. eexists. rewrite E.
    apply in_or_app. right. left. reflexivity.
  - intros H. apply FriendGraph.get_friends_In in H. destruct H as (t & Hin).
    rewrite E in Hin. apply in_app_or in Hin. destruct Hin as [Hin | [Hin | []]].
    + assert (existsb (is_edge r u) (friends w) = true) as Hx; [|congruence].
      apply existsb_exists. eexists. split; [exact Hin|].
      apply FriendGraph.is_edge_true. auto.
    + inversion Hin. subst. rewrite String.eqb_refl in Hne. discriminate.
Qed.

(** "bob" accepts "ann" on an empty store. *)
Lemma accept_without_request_is_one_sided_witness :
  In "ann" (get_friends "bob"
              (accept_friend_request "bob" "ann" (empty_world sample_clock)))
  /\ ~ In "bob" (get_friends "ann"
                   (accept_friend_request "bob" "ann" (empty_world sample_clock))).
Proof.
  pose proof (accept_without_request_is_one_sided "bob" "ann"
                (empty_world sample_clock)) as H.
  cbv zeta in H. apply H; reflexivity.
Defined.

(** Friendships are never revoked: whoever [get_friends u] lists stays
    listed after any sequence of calls. *)
Theorem friends_are_kept :
  forall (cs : list call) (u x : string) (w : World),
    In x (get_friends u w) -> In x (get_friends u (run cs w)).
Proof.
  intros cs u x w H. apply FriendGraph.get_friends_In in H.
  destruct H as (t & Hin). apply FriendGraph.get_friends_In. exists t.
  revert w Hin. unfold run. induction cs as [|c cs IH]; intros w Hin; simpl.
  - exact Hin.
  - apply IH. apply Friendship.exec_keeps_accepted; [reflexivity | exact Hin].
Qed.

(** "bob" keeps "ann" through a later request, score and rescan. *)
Lemma friends_are_kept_witness :
  In "ann" (get_friends "bob"
              (run [AddFriend "cat" "bob"; RecordScore "Snake" "ann" 600; Rescan]
                   (accept_friend_request "bob" "ann"
                      (add_friend "ann" "bob" (empty_world sample_clock))))).
Proof.
  apply (friends_are_kept
           [AddFriend "cat" "bob"; RecordScore "Snake" "ann" 600; Rescan]
           "bob" "ann"
           (accept_friend_request "bob" "ann"
              (add_friend "ann" "bob" (empty_world sample_clock)))).
  vm_compute. left. reflexivity.
Defined.

(** * The effect of one recorded score *)

Module Recording.

Lemma user_total_sum (u : string) (w : World) :
  get_user_total u w
  = if forallb int64 (running 0 (scores_by u w))
    then Returns (list_sum (scores_by u w))
    else Raises.
Proof.
  unfold get_user_total, scores_by.
  rewrite Ledger.scores_of_values, Sums.sum_exact.
  destruct (forallb int64 _); [|reflexivity].
  simpl. rewrite Totals.or_zero_summed. reflexivity.
Qed.

Lemma user_total_fits (u : string) (w : World) :
  fits (scores_by u w) = true ->
  get_user_total u w = Returns (list_sum (scores_by u w)).
Proof.
  intros H. rewrite user_total_sum, (Sums.fits_running _ H). reflexivity.
Qed.

(** The total after one more row of the same selection. *)
Lemma total_snoc (rows : list score_row) (r : score_row) :
  bind (Sql.sum (scores_of (rows ++ [r]))) (fun total => Returns (or_zero total))
  = bind (bind (Sql.sum (scores_of rows)) (fun total => Returns (or_zero total)))
         (fun t => add64 t (l_score r)).
Proof.
  unfold scores_of. rewrite map_app. cbn [map]. rewrite Sums.sum_snoc.
  destruct (Sql.sum (map (fun r0 => Some (l_score r0)) rows)) as [[a|]|];
    cbn [bind or_zero]; unfold add64.
  - destruct (int64 (a + l_score r)); reflexivity.
  - change (0 + l_score r) with (l_score r).
    destruct (int64 (l_score r)); reflexivity.
  - reflexivity.
Qed.


End Recording.

(** One more storable score adds itself to the sums of its user and game
    and to no other: [get_user_total] and [get_user_game_total] of the user
    (and game) recorded become the old result plus the score when that stays
    within 64 bits and raise when it does not (or when they raised before);
    for everyone else they are unchanged. *)
Theorem record_score_adds_to_totals :
  forall (game user : string) (score : Z) (u g : string) (w : World),
    int64 score = true ->
    let w' := record_score game user score w in
    get_user_total u w'
    = (if (u =? user)%string
       then bind (get_user_total u w) (fun t => add64 t score)
       else get_user_total u w)
    /\ get_user_game_total u g w'
       = (if (u =? user)%string && (g =? game)%string
          then bind (get_user_game_total u g w) (fun t => add64 t score)
          else get_user_game_total u g w).
Proof.
  intros game user score u g w _ w'. split.
  - unfold get_user_total, w'. rewrite Ledger.record_score_ledger, filter_app.
    cbn [filter l_user]. rewrite (String.eqb_sym user u).
    destruct (u =? user)%string.
    + apply (Recording.total_snoc _ (mk_score game user score (utc w (ticks w)))).
    + rewrite app_nil_r. reflexivity.
  - unfold get_user_game_total, w'. rewrite Ledger.record_score_ledger, filter_app.
    cbn [filter]. unfold of_user_game at 2. cbn [l_user l_game].
    rewrite (String.eqb_sym user u), (String.eqb_sym game g).
    destruct ((u =? user)%string && (g =? game)%string).
    + apply (Recording.total_snoc _ (mk_score game user score (utc w (ticks w)))).
    + rewrite app_nil_r. reflexivity.
Qed.

(** 600 and then 70 for "ann" in "Snake". *)
Lemma record_score_adds_to_totals_witness :
  get_user_total "ann"
    (record_score "Snake" "ann" 70
       (record_score "Snake" "ann" 600 (empty_world sample_clock)))
  = Returns 670.
Proof.
  apply (record_score_adds_to_totals "Snake" "ann" 70 "ann" "Snake"
           (record_score "Snake" "ann" 600 (empty_world sample_clock))).
  reflexivity.
Defined.





(** A score below 500 on one of the first four plays of a game adds no
    achievement row. *)
Theorem low_early_score_grants_nothing :
  forall (game user : string) (score : Z) (w : World),
    score < 500 -> plays_in user game w < 4 ->
    achievements (record_score game user score w) = achievements w.
Proof.
  intros game user score w Hs Hp.
  rewrite Ledger.record_score_steps, Ledger.plays_with_score.
  assert (E1 : score_attempts user game score = []).
  { unfold score_attempts, score_thresholds. simpl.
    destruct (Z.geb_spec score 500); [lia|].
    destruct (Z.geb_spec score 1000); [lia|]. reflexivity. }
  assert (E2 : play_attempts user game (plays_in user game w + 1) = []).
  { unfold play_attempts, play_thresholds. simpl.
    destruct (Z.geb_spec (plays_in user game w + 1) 5); [lia|].
    destruct (Z.geb_spec (plays_in user game w + 1) 10); [lia|].
    destruct (Z.geb_spec (plays_in user game w + 1) 25); [lia|]. reflexivity. }
  rewrite E1, E2. reflexivity.
Qed.

(** 499 on a first play. *)
Lemma low_early_score_grants_nothing_witness :
  achievements (record_score "Snake" "ann" 499 (empty_world sample_clock)) = [].
Proof.
  apply (low_early_score_grants_nothing "Snake" "ann" 499 (empty_world sample_clock)).
  - lia.
  - vm_compute. reflexivity.
Defined.

(** * More on the rescan *)

(** A rescan closes every gap, whatever the store: afterwards each user whose
    best score in a game reaches a score threshold holds the matching key,
    and each user whose number of plays reaches a play threshold holds the
    matching key; the ledger itself is not touched. *)
Theorem rescan_grants_every_met_threshold :
  forall (w : World) (u g : string) (th : Z),
    let w' := snd (rescan_achievements w) in
    leaderboard w' = leaderboard w
    /\ (In th score_thresholds -> th <= get_user_best_for_game u g w ->
        has_achievement u (score_key g th) w' = true)
    /\ (In th play_thresholds -> th <= plays_in u g w ->
        has_achievement u (plays_key g th) w' = true).
Proof.
  intros w u g th w'.
  pose proof (Rescan.rescan_ledger w) as Hl. fold w' in Hl.
  destruct (Rescan.rescan_complete w) as [Hs Hp]. fold w' in Hs, Hp.
  split; [exact Hl|]. split.
  - intros Hth Hle. apply Hs; [exact Hth|].
    rewrite (Ledger.same_ledger_best u g w w' Hl).
    rewrite <- Ledger.best_is_max_score. exact Hle.
  - intros Hth Hle. apply Hp; [exact Hth|].
    rewrite (Ledger.same_ledger_plays u g w w' Hl). exact Hle.
Qed.

(** A score of 600 written to the ledger without the evaluation that
    [record_score] runs after it is picked up by the rescan. *)
Lemma rescan_grants_every_met_threshold_witness :
  has_achievement "ann" (score_key "Snake" 500)
    (snd (rescan_achievements
            (with_score "Snake" "ann" 600 (empty_world sample_clock))))
  = true.
Proof.
  apply (rescan_grants_every_met_threshold
           (with_score "Snake" "ann" 600 (empty_world sample_clock))
           "ann" "Snake" 500).
  - simpl. left. reflexivity.
  - vm_compute. intros H. discriminate H.
Defined.

(** The number a rescan returns bounds the rows it inserts and is itself
    bounded by five per (user, game) pair of the ledger; existing
    achievement rows are kept as they are. *)
Theorem rescan_count_bounds :
  forall w : World,
    let n := fst (rescan_achievements w) in
    let w' := snd (rescan_achievements w) in
    0 <= n <= 5 * Z.of_nat (List.length (pairs_played w))
    /\ exists extra,
         achievements w' = achievements w ++ extra
         /\ Z.of_nat (List.length extra) <= n.
Proof.
  intros w n w'. unfold n, w'. rewrite Awards.rescan_attempts_run. cbn [fst snd].
  split.
  - split; [lia|]. rewrite Rescan.rescan_attempts_pairs.
    induction (pairs_played w) as [|[u g] l IH]; [simpl; lia|].
    cbn [flat_map fst snd]. rewrite length_app. cbn [List.length].
    assert (List.length (pair_attempts u g w) <= 5)%nat; [|lia].
    unfold pair_attempts, score_attempts, play_attempts,
      score_thresholds, play_thresholds.
    rewrite length_app, !length_map. simpl.
    repeat match goal with |- context [if ?c then _ else _] => destruct c end;
      simpl; lia.
  - destruct (Frames.award_all_rows (rescan_attempts w) w) as (ex & E & L).
    exists ex. split; [exact E | lia].
Qed.

(** * Leaderboards and overall ranks *)

Module Boards.

Lemma leb_trans (a b c : string) :
  String.leb a b = true -> String.leb b c = true -> String.leb a c = true.
Proof.
  unfold String.leb. revert b c.
  induction a as [|x a IH]; intros [|y b] [|z c]; simpl; try congruence.
  unfold Ascii.compare.
  destruct (N.compare_spec (N_of_ascii x) (N_of_ascii y));
    destruct (N.compare_spec (N_of_ascii y) (N_of_ascii z));
    destruct (N.compare_spec (N_of_ascii x) (N_of_ascii z));
    try congruence; try lia; auto.
  apply IH.
Qed.









Lemma firstn_nodup {A : Type} (n : nat) (l : list A) : NoDup l -> NoDup (firstn n l).
Proof.
  intros H. rewrite <- (firstn_skipn n l) in H.
  apply NoDup_app_remove_r in H. exact H.
Qed.

Lemma listed_once {A B : Type} (f : A -> B) (before : A -> A -> bool)
      (n : Z) (l : list A) :
  NoDup (map f l) -> NoDup (map f (Sql.limit n (Sql.order_by before l))).
Proof.
  intros H.
  assert (Ho : NoDup (map f (Sql.order_by before l))).
  { eapply Permutation_NoDup; [|exact H].
    apply Permutation_map, Permutation_sym, SqlFacts.order_by_perm. }
  unfold Sql.limit. destruct (n <? 0); [exact Ho|].
  rewrite <- firstn_map. apply firstn_nodup, Ho.
Qed.

Lemma limit_bound {A : Type} (n : Z) (l : list A) :
  0 <= n -> Z.of_nat (List.length (Sql.limit n l)) <= n.
Proof.
  intros H. unfold Sql.limit. destruct (Z.ltb_spec n 0); [lia|].
  pose proof (firstn_le_length (Z.to_nat n) l). lia.
Qed.


Lemma filter_misses {A : Type} (f : A -> bool) (x : A) (l : list A) :
  In x l -> f x = false -> (List.length (filter f l) < List.length l)%nat.
Proof.
  induction l as [|y l IH]; intros Hin Hf; [destruct Hin|].
  destruct Hin as [->|Hin]; simpl.
  - rewrite Hf. pose proof (filter_length_le f l). lia.
  - destruct (f y); simpl; specialize (IH Hin Hf); lia.
Qed.



End Boards.





(** * Sum-of-bests queries *)

Module BestsMore.

Lemma game_of_user (u g : string) (l : list score_row) :
  filter (fun r => if string_dec (l_game r) g then true else false)
         (filter (fun r => l_user r =? u)%string l)
  = filter (of_user_game u g) l.
Proof.
  induction l as [|r l IH]; simpl; [reflexivity|].
  unfold of_user_game in *.
  destruct (String.eqb_spec (l_user r) u) as [Eu|Eu]; simpl; [|exact IH].
  destruct (string_dec (l_game r) g) as [Eg|Eg];
    destruct (String.eqb_spec (l_game r) g); try contradiction;
    rewrite IH; reflexivity.
Qed.

Lemma games_have_events (u g : string) (w : World) :
  In g (games_of u w) <-> has_events u g w = true.
Proof.
  unfold games_of, has_events. rewrite nodup_In, in_map_iff, existsb_exists.
  split; intros (r & H1 & H2).
  - apply filter_In in H2. destruct H2 as [Hin Hu]. apply String.eqb_eq in Hu.
    exists r. split; [assumption|]. apply Ledger.of_user_game_true. auto.
  - apply Ledger.of_user_game_true in H2. destruct H2 as [Hu Hg].
    exists r. split; [assumption|]. apply filter_In. split; [assumption|].
    apply String.eqb_eq. assumption.
Qed.

Lemma games_iff_scores (u : string) (w : World) :
  has_scores u w = match games_of u w with [] => false | _ :: _ => true end.
Proof.
  destruct (games_of u w) as [|g gs] eqn:E.
  - destruct (has_scores u w) eqn:H; [|reflexivity].
    unfold has_scores in H. apply existsb_exists in H. destruct H as (r & Hin & Hu).
    assert (In (l_game r) (games_of u w)) as Hg.
    { unfold games_of. apply nodup_In, in_map, filter_In. auto. }
    rewrite E in Hg. destruct Hg.
  - assert (In g (games_of u w)) as Hg by (rewrite E; left; reflexivity).
    apply games_have_events in Hg. unfold has_events in Hg.
    apply existsb_exists in Hg. destruct Hg as (r & Hin & Hr).
    apply Ledger.of_user_game_true in Hr.
    unfold has_scores. apply existsb_exists. exists r. split; [assumption|].
    apply String.eqb_eq. tauto.
Qed.

(** The inner query of the per-user sum: one best per game played. *)
Lemma user_bests (u : string) (w : World) :
  map (fun grp => Sql.max (scores_of (snd grp)))
      (Sql.group_by string_dec l_game
         (filter (fun r => l_user r =? u)%string (leaderboard w)))
  = map Some (map (fun g => max_score_in u g w) (games_of u w)).
Proof.
  unfold Sql.group_by. rewrite !map_map. fold (games_of u w).
  apply map_ext_in. intros g Hg. simpl. rewrite game_of_user.
  fold (events u g w). rewrite Ledger.max_of_events.
  apply games_have_events in Hg. rewrite Hg. reflexivity.
Qed.

Lemma user_bests_of (u : string) (w : World) :
  map (fun grp => Sql.max (scores_of (snd grp)))
      (Sql.group_by string_dec l_game
         (filter (fun r => l_user r =? u)%string (leaderboard w)))
  = map Some (bests_of u w).
Proof. apply user_bests. Qed.

Lemma overall_by_bests_exact (u : string) (w : World) :
  get_user_overall_by_bests u w
  = if forallb int64 (running 0 (bests_of u w))
    then Returns (sum_of_bests u w)
    else Raises.
Proof.
  unfold get_user_overall_by_bests. rewrite user_bests_of, Sums.sum_exact.
  destruct (forallb int64 _); [|reflexivity].
  simpl. rewrite Totals.or_zero_summed. reflexivity.
Qed.

Lemma overall_by_bests_fits (u : string) (w : World) :
  fits (bests_of u w) = true ->
  get_user_overall_by_bests u w = Returns (sum_of_bests u w).
Proof.
  intros H. rewrite overall_by_bests_exact, (Sums.fits_running _ H). reflexivity.
Qed.



End BestsMore.





(** * The per-game leaderboard *)

Module GameBoard.

Lemma leb_refl (a : string) : String.leb a a = true.
Proof. destruct (String.leb_total a a); assumption. Qed.

Lemma latest_of (t : list string) (a : string) :
  exists m,
    fold_left (fun acc v =>
                 match acc, v with
                 | a, None => a
                 | None, Some x => Some x
                 | Some a, Some x => Some (if String.leb a x then x else a)
                 end) (map Some t) (Some a) = Some m
    /\ In m (a :: t)
    /\ String.leb a m = true
    /\ Forall (fun y => String.leb y m = true) t.
Proof.
  revert a. induction t as [|y t IH]; intros a; simpl.
  - exists a. repeat split; auto using leb_refl.
  - destruct (IH (if String.leb a y then y else a)) as (m & E & Hin & Ha & Hall).
    exists m. split; [exact E|].
    destruct (String.leb a y) eqn:L.
    + repeat split.
      * destruct Hin as [<-|Hin]; auto.
      * eapply Boards.leb_trans; eassumption.
      * constructor; assumption.
    + assert (String.leb y a = true) as L'.
      { destruct (String.leb_total a y); congruence. }
      repeat split.
      * destruct Hin as [<-|Hin]; auto.
      * exact Ha.
      * constructor; [eapply Boards.leb_trans; eassumption | assumption].
Qed.

Lemma text_max_latest (l : list string) :
  l <> [] ->
  exists m, text_max (map Some l) = Some m
            /\ In m l /\ Forall (fun y => String.leb y m = true) l.
Proof.
  destruct l as [|a t]; [congruence|]. intros _.
  destruct (latest_of t a) as (m & E & Hin & Ha & Hall).
  exists m. unfold text_max. simpl. auto.
Qed.

(** The grouped query of [get_leaderboard], before ordering. *)
Lemma board_rows (game : string) (w : World) :
  map (fun g => (fst g,
                 Sql.max (scores_of (snd g)),
                 text_max (map (fun r => Some (l_created_at r)) (snd g))))
      (Sql.group_by string_dec l_user
         (filter (fun r => l_game r =? game)%string (leaderboard w)))
  = map (fun v => (v, Some (max_score_in v game w),
                   text_max (map (fun r => Some (l_created_at r)) (events v game w))))
        (players game w).
Proof.
  unfold Sql.group_by. rewrite map_map. fold (players game w).
  apply map_ext_in. intros v Hv. simpl. rewrite Ranking.group_of_player.
  fold (events v game w). rewrite Ledger.max_of_events.
  apply Ranking.players_have_events in Hv. rewrite Hv. reflexivity.
Qed.

Lemma events_nonempty (u g : string) (w : World) :
  has_events u g w = true -> events u g w <> [].
Proof.
  unfold has_events, events. intros H E.
  apply existsb_exists in H. destruct H as (r & Hin & Hr).
  assert (In r []) as []. rewrite <- E. apply filter_In. auto.
Qed.

Lemma row_facts (game : string) (limit : Z) (w : World)
      (row : string * option Z * option timestamp) :
  In row (get_leaderboard game limit w) ->
  has_events (fst (fst row)) game w = true
  /\ snd (fst row) = Some (get_user_best_for_game (fst (fst row)) game w)
  /\ exists ts,
       snd row = Some ts
       /\ In ts (map l_created_at (events (fst (fst row)) game w))
       /\ Forall (fun e => String.leb (l_created_at e) ts = true)
                 (events (fst (fst row)) game w).
Proof.
  unfold get_leaderboard. intros H.
  apply SqlFacts.limit_incl, SqlFacts.order_by_In in H.
  rewrite board_rows in H. apply in_map_iff in H. destruct H as (v & <- & Hv).
  apply Ranking.players_have_events in Hv. cbn [fst snd].
  split; [exact Hv|]. split; [rewrite Ledger.best_is_max_score; reflexivity|].
  destruct (text_max_latest (map l_created_at (events v game w))) as (m & E & Hin & Hall).
  { intros E. apply map_eq_nil in E. revert E. apply events_nonempty, Hv. }
  exists m. rewrite map_map in E. split; [exact E|]. split; [exact Hin|].
  rewrite Forall_map in Hall. exact Hall.
Qed.

Lemma none_passes {A : Type} (f : A -> bool) (l : list A) :
  (forall x, In x l -> f x = false) -> filter f l = [].
Proof.
  induction l as [|x l IH]; intros H; simpl; [reflexivity|].
  rewrite (H x) by (left; reflexivity). apply IH. intros y Hy. apply H. right. exact Hy.
Qed.

Lemma limit_head {A : Type} (n : Z) (l : list A) (x : A) (rest : list A) :
  Sql.limit n l = x :: rest -> exists rest', l = x :: rest'.
Proof.
  unfold Sql.limit. destruct (n <? 0).
  - intros ->. eauto.
  - destruct (Z.to_nat n), l as [|y l]; simpl; try discriminate.
    intros [= <- _]. eauto.
Qed.

End GameBoard.

(** [get_leaderboard] lists each player of the game at most once, with the
    player's best score in the game (the value of [get_user_best_for_game])
    and the latest timestamp among the player's events in it, by best score
    descending; a non-negative limit bounds the number of rows. *)
Theorem leaderboard_lists_bests :
  forall (game : string) (limit : Z) (w : World),
    let res := get_leaderboard game limit w in
    let user_of := fun row : string * option Z * option timestamp => fst (fst row) in
    Forall (fun row =>
              has_events (user_of row) game w = true
              /\ snd (fst row) = Some (get_user_best_for_game (user_of row) game w)
              /\ exists ts,
                   snd row = Some ts
                   /\ In ts (map l_created_at (events (user_of row) game w))
                   /\ Forall (fun e => String.leb (l_created_at e) ts = true)
                             (events (user_of row) game w)) res
    /\ StronglySorted
         (fun p q => get_user_best_for_game (user_of q) game w
                     <= get_user_best_for_game (user_of p) game w) res
    /\ NoDup (map user_of res)
    /\ (0 <= limit -> Z.of_nat (List.length res) <= limit).
Proof.
  intros game limit w res user_of.
  split; [apply Forall_forall; intros row Hrow; apply (GameBoard.row_facts _ _ _ _ Hrow)|].
  split; [|split].
  - apply Bests.sorted_within
      with (R := fun a b : string * option Z * option timestamp =>
                   Sql.int_desc (snd (fst a)) (snd (fst b)) = true).
    + intros a b Ha Hb.
      destruct (GameBoard.row_facts _ _ _ _ Ha) as (_ & Ea & _).
      destruct (GameBoard.row_facts _ _ _ _ Hb) as (_ & Eb & _).
      rewrite Ea, Eb. simpl. apply Z.leb_le.
    + unfold res, get_leaderboard.
      apply SqlFacts.limit_sorted, SqlFacts.order_by_sorted.
      * intros x y. apply Bests.int_desc_total.
      * intros x y z. apply Bests.int_desc_trans.
  - unfold res, get_leaderboard. apply Boards.listed_once.
    rewrite GameBoard.board_rows, map_map. cbn [fst]. rewrite map_id.
    apply NoDup_nodup.
  - apply Boards.limit_bound.
Qed.

(** Three players, limit 2. *)
Lemma leaderboard_lists_bests_witness :
  Z.of_nat
    (List.length
       (get_leaderboard "Snake" 2
          (run [RecordScore "Snake" "ann" 600; RecordScore "Snake" "bob" 70;
                RecordScore "Snake" "cat" 10] (empty_world sample_clock)))) <= 2.
Proof.
  pose proof (leaderboard_lists_bests "Snake" 2
                (run [RecordScore "Snake" "ann" 600; RecordScore "Snake" "bob" 70;
                      RecordScore "Snake" "cat" 10] (empty_world sample_clock))) as H.
  cbv zeta in H. destruct H as (_ & _ & _ & H). apply H. lia.
Defined.

(** A rank is between 1 and the number of players of the game. *)
Theorem game_rank_bounds :
  forall (u g : string) (w : World) (r : Z),
    get_rank_for_game u g w = Some r ->
    1 <= r <= Z.of_nat (List.length (players g w)).
Proof.
  intros u g w r. rewrite Ranking.rank_value.
  destruct (has_events u g w) eqn:E; [|discriminate].
  intros Hr.
  assert (Er : r = 1 + Z.of_nat
                         (List.length
                            (filter (fun v => max_score_in v g w >? max_score_in u g w)
                                    (players g w)))) by congruence.
  clear Hr.
  pose proof (Boards.filter_misses
                (fun v => max_score_in v g w >? max_score_in u g w) u (players g w)
                (proj2 (Ranking.players_have_events u g w) E)) as H.
  assert ((max_score_in u g w >? max_score_in u g w) = false) as Hf.
  { rewrite Z.gtb_ltb. apply Z.ltb_irrefl. }
  specialize (H Hf). lia.
Qed.

(** "cat" is third of three. *)
Lemma game_rank_bounds_witness :
  1 <= 3 <= Z.of_nat
              (List.length
                 (players "Snake"
                    (run [RecordScore "Snake" "ann" 600; RecordScore "Snake" "bob" 70;
                          RecordScore "Snake" "cat" 10] (empty_world sample_clock)))).
Proof.
  apply (game_rank_bounds "cat" "Snake"
           (run [RecordScore "Snake" "ann" 600; RecordScore "Snake" "bob" 70;
                 RecordScore "Snake" "cat" 10] (empty_world sample_clock)) 3).
  reflexivity.
Defined.

(** The leaderboard and the rank agree at the top: whoever heads
    [get_leaderboard] for a game has rank 1 in it, for any limit. *)
Theorem leaderboard_head_ranks_first :
  forall (game : string) (limit : Z) (w : World)
         (row : string * option Z * option timestamp)
         (rest : list (string * option Z * option timestamp)),
    get_leaderboard game limit w = row :: rest ->
    get_rank_for_game (fst (fst row)) game w = Some 1.
Proof.
  intros game limit w row rest H.
  assert (Hrow : In row (get_leaderboard game limit w)) by (rewrite H; left; reflexivity).
  destruct (GameBoard.row_facts _ _ _ _ Hrow) as (Hev & Ebest & _).
  unfold get_leaderboard in H. apply GameBoard.limit_head in H.
  destruct H as (rest' & HL).
  pose proof (SqlFacts.order_by_sorted
                (fun a b : string * option Z * option timestamp =>
                   Sql.int_desc (snd (fst a)) (snd (fst b)))
                (fun x y => Bests.int_desc_total _ _)
                (fun x y z => Bests.int_desc_trans _ _ _)) as Hs.
  match type of HL with ?L = _ => specialize (Hs _ : StronglySorted _ L) end.
  rewrite HL in Hs. apply StronglySorted_inv in Hs. destruct Hs as [_ Hrest].
  rewrite Forall_forall in Hrest.
  rewrite Ranking.rank_value, Hev. rewrite GameBoard.none_passes; [reflexivity|].
  intros v Hv. rewrite Z.gtb_ltb. apply Z.ltb_ge.
  rewrite Ledger.best_is_max_score in Ebest.
  assert (In (v, Some (max_score_in v game w),
              text_max (map (fun r => Some (l_created_at r)) (events v game w)))
             (row :: rest')) as Hin.
  { rewrite <- HL. apply SqlFacts.order_by_In. rewrite GameBoard.board_rows.
    apply in_map_iff. exists v. auto. }
  destruct Hin as [E | Hin].
  - subst row. simpl. lia.
  - specialize (Hrest _ Hin). cbn [fst snd] in Hrest. rewrite Ebest in Hrest.
    simpl in Hrest. apply Z.leb_le in Hrest. exact Hrest.
Qed.

(** "bob" heads the board of "Snake" and has rank 1. *)
Lemma leaderboard_head_ranks_first_witness :
  get_rank_for_game "bob" "Snake"
    (run [RecordScore "Snake" "ann" 600; RecordScore "Snake" "bob" 700]
         (empty_world sample_clock)) = Some 1.
Proof.
  apply (leaderboard_head_ranks_first "Snake" 20
           (run [RecordScore "Snake" "ann" 600; RecordScore "Snake" "bob" 700]
                (empty_world sample_clock))
           ("bob", Some 700, Some (sample_clock 2))
           [("ann", Some 600, Some (sample_clock 0))]).
  vm_compute. reflexivity.
Defined.

(** * Bests against totals *)

Module Policies.

Lemma best_score_value (u : string) (w : World) :
  get_user_best_score u w
  = match scores_by u w with [] => 0 | x :: t => list_max x t end.
Proof.
  unfold get_user_best_score, scores_by, Sql.max.
  rewrite Ledger.scores_of_values, SqlFacts.agg_values.
  destruct (map l_score _); reflexivity.
Qed.

Lemma events_of_user (u g : string) (l : list score_row) :
  filter (fun r => l_game r =? g)%string (filter (fun r => l_user r =? u)%string l)
  = filter (of_user_game u g) l.
Proof.
  induction l as [|r l IH]; simpl; [reflexivity|]. unfold of_user_game in *.
  destruct (l_user r =? u)%string; simpl; [|exact IH].
  destruct (l_game r =? g)%string; rewrite IH; reflexivity.
Qed.

Lemma event_scores_incl (u g : string) (w : World) :
  incl (map l_score (events u g w)) (scores_by u w).
Proof.
  intros s Hs. unfold events in Hs. rewrite <- events_of_user in Hs.
  apply in_map_iff in Hs. destruct Hs as (r & <- & Hr).
  apply filter_In in Hr. apply in_map. tauto.
Qed.

Lemma member_le_max (x : Z) (t : list Z) (y : Z) : In y (x :: t) -> y <= list_max x t.
Proof.
  intros H. pose proof (Ledger.list_max_upper x t) as U.
  rewrite Forall_forall in U. apply U, H.
Qed.

Lemma sum_nonneg (l : list Z) : Forall (fun s => 0 <= s) l -> 0 <= list_sum l.
Proof. induction 1; simpl; lia. Qed.

Lemma member_le_sum (l : list Z) (y : Z) :
  Forall (fun s => 0 <= s) l -> In y l -> y <= list_sum l.
Proof.
  induction 1 as [|x l Hx Hl IH]; intros Hin; [destruct Hin|].
  pose proof (sum_nonneg l Hl).
  destruct Hin as [->|Hin]; simpl; [lia | specialize (IH Hin); lia].
Qed.

Lemma sum_pointwise {A : Type} (f g : A -> Z) (l : list A) :
  (forall x, In x l -> f x <= g x) -> list_sum (map f l) <= list_sum (map g l).
Proof.
  induction l as [|x l IH]; intros H; simpl; [lia|].
  pose proof (H x (or_introl eq_refl)).
  assert (list_sum (map f l) <= list_sum (map g l)); [|lia].
  apply IH. intros y Hy. apply H. right. exact Hy.
Qed.

Lemma sum_split (f : score_row -> bool) (l : list score_row) :
  list_sum (map l_score l)
  = list_sum (map l_score (filter f l))
    + list_sum (map l_score (filter (fun r => negb (f r)) l)).
Proof.
  induction l as [|r l IH]; simpl; [reflexivity|].
  destruct (f r); simpl; lia.
Qed.

Lemma sum_by_game (G : list string) :
  NoDup G ->
  forall l : list score_row,
    (forall r, In r l -> In (l_game r) G) ->
    list_sum (map l_score l)
    = list_sum (map (fun g => list_sum
                                (map l_score (filter (fun r => l_game r =? g)%string l)))
                    G).
Proof.
  induction 1 as [|g G Hg HG IH]; intros l Hl.
  - destruct l as [|r l]; [reflexivity|]. destruct (Hl r (or_introl eq_refl)).
  - simpl. rewrite (sum_split (fun r => l_game r =? g)%string l). f_equal.
    rewrite (IH (filter (fun r => negb (l_game r =? g)%string) l)).
    + f_equal. apply map_ext_in. intros g' Hg'. f_equal. f_equal.
      induction l as [|r l IHl]; simpl; [reflexivity|].
      destruct (String.eqb_spec (l_game r) g) as [E|E]; simpl.
      * destruct (String.eqb_spec (l_game r) g') as [E'|E'].
        -- subst. contradiction.
        -- apply IHl. intros r' Hr'. apply Hl. right. exact Hr'.
      * destruct (l_game r =? g')%string; [f_equal|];
          apply IHl; intros r' Hr'; apply Hl; right; exact Hr'.
    + intros r Hr. apply filter_In in Hr. destruct Hr as [Hin Hne].
      destruct (Hl r Hin) as [E|Hin']; [|exact Hin'].
      subst g. rewrite String.eqb_refl in Hne. discriminate.
Qed.

Lemma split_sum (u : string) (w : World) :
  list_sum (scores_by u w)
  = list_sum (map (fun g => list_sum (map l_score (events u g w))) (games_of u w)).
Proof.
  unfold scores_by. rewrite (sum_by_game (games_of u w)).
  - f_equal. apply map_ext. intros g. unfold events. rewrite events_of_user. reflexivity.
  - apply NoDup_nodup.
  - intros r Hr. unfold games_of. apply nodup_In, in_map, Hr.
Qed.

Lemma event_scores_nonneg (u g : string) (w : World) :
  Forall (fun s => 0 <= s) (scores_by u w) ->
  Forall (fun s => 0 <= s) (map l_score (events u g w)).
Proof.
  intros H. rewrite Forall_forall in *. intros s Hs.
  apply H, (event_scores_incl u g w), Hs.
Qed.

Lemma best_le_game_sum (u g : string) (w : World) :
  Forall (fun s => 0 <= s) (scores_by u w) ->
  0 <= max_score_in u g w <= list_sum (map l_score (events u g w)).
Proof.
  intros H. pose proof (event_scores_nonneg u g w H) as Hev.
  unfold max_score_in. destruct (map l_score (events u g w)) as [|x t] eqn:E.
  - simpl. lia.
  - pose proof (Ledger.list_max_member x t) as Hm. split.
    + rewrite Forall_forall in Hev. apply Hev, Hm.
    + apply member_le_sum; assumption.
Qed.

Lemma bests_le_total (u : string) (w : World) :
  Forall (fun s => 0 <= s) (scores_by u w) ->
  sum_of_bests u w <= list_sum (scores_by u w).
Proof.
  intros H. rewrite split_sum. unfold sum_of_bests. apply sum_pointwise.
  intros g _. apply best_le_game_sum, H.
Qed.

Lemma magnitude_nonneg_sum (l : list Z) :
  Forall (fun s => 0 <= s) l -> magnitude l = list_sum l.
Proof.
  unfold magnitude. induction 1 as [|x l Hx Hl IH]; simpl; [reflexivity|].
  rewrite IH. lia.
Qed.

Lemma events_fit (u g : string) (w : World) :
  fits (scores_by u w) = true -> fits (map l_score (events u g w)) = true.
Proof.
  unfold fits, scores_by, events. rewrite !Z.leb_le. intros H.
  rewrite <- events_of_user.
  pose proof (Sums.magnitude_filter l_score (fun r => l_game r =? g)%string
                (filter (fun r => l_user r =? u)%string (leaderboard w))). lia.
Qed.

Lemma bests_fit_nonneg (u : string) (w : World) :
  Forall (fun s => 0 <= s) (scores_by u w) ->
  fits (scores_by u w) = true -> fits (bests_of u w) = true.
Proof.
  intros Hn. unfold fits. rewrite !Z.leb_le. intros H.
  rewrite (magnitude_nonneg_sum _ Hn) in H.
  rewrite magnitude_nonneg_sum.
  - pose proof (bests_le_total u w Hn) as Hb. unfold sum_of_bests, bests_of in *. lia.
  - unfold bests_of. apply Forall_forall. intros b Hb. apply in_map_iff in Hb.
    destruct Hb as (g & <- & _). apply best_le_game_sum, Hn.
Qed.

Lemma game_total_fits (u g : string) (w : World) :
  fits (scores_by u w) = true ->
  get_user_game_total u g w = Returns (list_sum (map l_score (events u g w))).
Proof.
  intros H. rewrite Totals.game_total_sum.
  rewrite (Sums.fits_running _ (events_fit u g w H)). reflexivity.
Qed.

End Policies.

(** [get_user_best_score] is the best over all games: it bounds the best of
    every game the user has played, is reached in one of them, and is 0 for
    a user without scores. *)
Theorem best_score_is_best_over_games :
  forall (u : string) (w : World),
    (forall g, has_events u g w = true ->
               get_user_best_for_game u g w <= get_user_best_score u w)
    /\ (has_scores u w = true ->
        exists g, has_events u g w = true
                  /\ get_user_best_score u w = get_user_best_for_game u g w)
    /\ (has_scores u w = false -> get_user_best_score u w = 0).
Proof.
  intros u w.
  assert (Hbound : forall g, has_events u g w = true ->
                     get_user_best_for_game u g w <= get_user_best_score u w).
  { intros g Hg. rewrite Ledger.best_is_max_score, Policies.best_score_value.
    pose proof (Policies.event_scores_incl u g w) as Hincl.
    unfold max_score_in.
    destruct (map l_score (events u g w)) as [|x t] eqn:E.
    - apply GameBoard.events_nonempty in Hg. apply map_eq_nil in E. contradiction.
    - pose proof (Hincl _ (Ledger.list_max_member x t)) as Hin.
      destruct (scores_by u w) as [|y s]; [destruct Hin|].
      apply Policies.member_le_max, Hin. }
  split; [exact Hbound|]. split.
  - intros Hs. pose proof (Policies.best_score_value u w) as Ev.
    destruct (scores_by u w) as [|y s] eqn:E.
    + unfold has_scores in Hs. apply existsb_exists in Hs.
      destruct Hs as (r & Hin & Hr). unfold scores_by in E.
      apply map_eq_nil in E.
      assert (In r []) as []. rewrite <- E. apply filter_In. auto.
    + pose proof (Ledger.list_max_member y s) as Hm. rewrite <- Ev, <- E in Hm.
      unfold scores_by in Hm. apply in_map_iff in Hm. destruct Hm as (r & Hr & Hin).
      apply filter_In in Hin. destruct Hin as [Hin Hu]. apply String.eqb_eq in Hu.
      assert (Hev : has_events u (l_game r) w = true).
      { unfold has_events. apply existsb_exists. exists r. split; [exact Hin|].
        apply Ledger.of_user_game_true. auto. }
      exists (l_game r). split; [exact Hev|].
      pose proof (Hbound _ Hev) as Hle.
      assert (l_score r <= get_user_best_for_game u (l_game r) w); [|lia].
      rewrite Ledger.best_is_max_score. unfold max_score_in.
      assert (In (l_score r) (map l_score (events u (l_game r) w))) as Hin'.
      { apply in_map. unfold events. apply filter_In. split; [exact Hin|].
        apply Ledger.of_user_game_true. auto. }
      destruct (map l_score (events u (l_game r) w)) as [|x t]; [destruct Hin'|].
      apply Policies.member_le_max, Hin'.
  - intros Hs. rewrite Policies.best_score_value. unfold scores_by, has_scores in *.
    rewrite (Totals.no_match_filter _ _ Hs). reflexivity.
Qed.

(** "ann" has 700 in "Snake" and 40 in "Pong". *)
Lemma best_score_is_best_over_games_witness :
  let w := run [RecordScore "Snake" "ann" 700; RecordScore "Pong" "ann" 40]
               (empty_world sample_clock) in
  get_user_best_for_game "ann" "Pong" w <= get_user_best_score "ann" w.
Proof.
  intros w. apply (best_score_is_best_over_games "ann" w). reflexivity.
Defined.



(** When none of a user's scores is negative and they fit in 64 bits, all
    three helpers return, the best in a game is at most the user's total in
    that game, and the sum of bests is at most the sum of all scores. *)
Theorem bests_do_not_exceed_totals :
  forall (u : string) (w : World),
    Forall (fun s => 0 <= s) (scores_by u w) ->
    fits (scores_by u w) = true ->
    (forall g, exists t,
        get_user_game_total u g w = Returns t
        /\ get_user_best_for_game u g w <= t)
    /\ exists b t,
         get_user_overall_by_bests u w = Returns b
         /\ get_user_total u w = Returns t
         /\ b <= t.
Proof.
  intros u w Hn Hf. split.
  - intros g. eexists. split; [apply Policies.game_total_fits, Hf|].
    rewrite Ledger.best_is_max_score. apply Policies.best_le_game_sum, Hn.
  - exists (sum_of_bests u w), (list_sum (scores_by u w)). split; [|split].
    + apply BestsMore.overall_by_bests_fits, Policies.bests_fit_nonneg; assumption.
    + apply Recording.user_total_fits, Hf.
    + apply Policies.bests_le_total, Hn.
Qed.

(** 600 and 700 in "Snake", 40 in "Pong": 740 by bests against 1340. *)
Lemma bests_do_not_exceed_totals_witness :
  let w := run [RecordScore "Snake" "ann" 600; RecordScore "Snake" "ann" 700;
                RecordScore "Pong" "ann" 40] (empty_world sample_clock) in
  exists b t,
    get_user_overall_by_bests "ann" w = Returns b
    /\ get_user_total "ann" w = Returns t
    /\ b <= t.
Proof.
  intros w. apply (bests_do_not_exceed_totals "ann" w).
  - vm_compute. repeat constructor; discriminate.
  - vm_compute. reflexivity.
Defined.

(** * Listing achievements and naming them *)

Module Launcher.

Lemma length_append (a b : string) :
  String.length (a ++ b) = (String.length a + String.length b)%nat.
Proof. induction a as [|c a IH]; simpl; [reflexivity | rewrite IH; reflexivity]. Qed.

Lemma endswith_step (c : ascii) (s suf : string) :
  endswith (String c s) suf
  = if (String c s =? suf)%string then true else endswith s suf.
Proof. reflexivity. Qed.

Lemma contains_step (sub : string) (c : ascii) (s : string) :
  contains sub (String c s)
  = if String.prefix sub (String c s) then true else contains sub s.
Proof. reflexivity. Qed.

Lemma endswith_suffix (g a : string) : endswith (g ++ a) a = true.
Proof.
  induction g as [|c g IH]; cbn [append].
  - destruct a as [|c a]; [reflexivity|].
    rewrite endswith_step, String.eqb_refl. reflexivity.
  - rewrite endswith_step, IH. destruct (_ =? _)%string; reflexivity.
Qed.

Lemma endswith_other (g a b : string) :
  (String.length b <= String.length a)%nat ->
  endswith a b = false -> endswith (g ++ a) b = false.
Proof.
  intros Hlen Hab. induction g as [|c g IH]; cbn [append]; [exact Hab|].
  rewrite endswith_step, IH.
  destruct (String.eqb_spec (String c (g ++ a)) b) as [E|E]; [|reflexivity].
  apply (f_equal String.length) in E. simpl in E. rewrite length_append in E. lia.
Qed.

Lemma endswith_split (s b : string) :
  endswith s b = true -> exists p, s = (p ++ b)%string.
Proof.
  induction s as [|c s IH].
  - simpl. destruct b; [exists ""; reflexivity | discriminate].
  - rewrite endswith_step.
    destruct (String.eqb_spec (String c s) b) as [E|E].
    + exists "". exact E.
    + intros H. destruct (IH H) as (p & ->). exists (String c p). reflexivity.
Qed.

Lemma suffix_of_longer (g a p b : string) :
  (g ++ a)%string = (p ++ b)%string ->
  (String.length a <= String.length b)%nat ->
  exists q, b = (q ++ a)%string.
Proof.
  revert p. induction g as [|c g IH]; intros p E Hlen; cbn [append] in E.
  - exists "". destruct p as [|c p]; [symmetry; exact E|].
    apply (f_equal String.length) in E. simpl in E. rewrite length_append in E. lia.
  - destruct p as [|c' p]; cbn [append] in E.
    + exists (String c g). symmetry. exact E.
    + injection E as _ E. apply (IH p E Hlen).
Qed.

Lemma endswith_longer (g a b : string) :
  (String.length a <= String.length b)%nat ->
  endswith b a = false -> endswith (g ++ a) b = false.
Proof.
  intros Hlen Hba. destruct (endswith (g ++ a) b) eqn:E; [|reflexivity].
  apply endswith_split in E. destruct E as (p & E).
  destruct (suffix_of_longer _ _ _ _ E Hlen) as (q & ->).
  rewrite endswith_suffix in Hba. discriminate.
Qed.

Lemma contains_suffix (sub g a : string) :
  contains sub a = true -> contains sub (g ++ a) = true.
Proof.
  intros H. induction g as [|c g IH]; cbn [append]; [exact H|].
  rewrite contains_step, IH. destruct (String.prefix _ _); reflexivity.
Qed.

Ltac no_suffix g a b :=
  first [ rewrite (endswith_other g a b) by (simpl; lia || reflexivity)
        | rewrite (endswith_longer g a b) by (simpl; lia || reflexivity) ].

Lemma name_score_500 (g : string) : _pretty_achievement_name (g ++ "_score_500") = "Pro".
Proof. unfold _pretty_achievement_name. rewrite endswith_suffix. reflexivity. Qed.

Lemma name_score_1000 (g : string) :
  _pretty_achievement_name (g ++ "_score_1000") = "Hacker".
Proof.
  unfold _pretty_achievement_name.
  no_suffix g "_score_1000" "_score_500".
  rewrite endswith_suffix. reflexivity.
Qed.

Lemma name_plays_5 (g : string) : _pretty_achievement_name (g ++ "_plays_5") = "Rookie".
Proof.
  unfold _pretty_achievement_name.
  no_suffix g "_plays_5" "_score_500". no_suffix g "_plays_5" "_score_1000".
  rewrite contains_suffix by reflexivity.
  rewrite endswith_suffix. reflexivity.
Qed.

Lemma name_plays_10 (g : string) : _pretty_achievement_name (g ++ "_plays_10") = "Pro".
Proof.
  unfold _pretty_achievement_name.
  no_suffix g "_plays_10" "_score_500". no_suffix g "_plays_10" "_score_1000".
  rewrite contains_suffix by reflexivity.
  no_suffix g "_plays_10" "_plays_5".
  rewrite endswith_suffix. reflexivity.
Qed.

Lemma name_plays_25 (g : string) : _pretty_achievement_name (g ++ "_plays_25") = "Expert".
Proof.
  unfold _pretty_achievement_name.
  no_suffix g "_plays_25" "_score_500". no_suffix g "_plays_25" "_score_1000".
  rewrite contains_suffix by reflexivity.
  no_suffix g "_plays_25" "_plays_5". no_suffix g "_plays_25" "_plays_10".
  rewrite endswith_suffix. reflexivity.
Qed.

(** Rows only ever come from attempts. *)
Lemma award_row_origin (u k r : string) (w : World) (a : ach_row) :
  In a (achievements (_award u k r w)) ->
  In a (achievements w) \/ (a_user a = u /\ a_key a = k /\ a_reason a = r).
Proof.
  rewrite Awards.award_rows. intros H. apply in_app_or in H.
  destruct H as [H|H]; [left; exact H|].
  destruct (has_achievement u k w); [destruct H|].
  destruct H as [<-|[]]. right. auto.
Qed.

Lemma award_all_row_origin (gs : list attempt) (w : World) (a : ach_row) :
  In a (achievements (award_all gs w)) ->
  In a (achievements w)
  \/ exists g, In g gs /\ a_user a = fst (fst g) /\ a_key a = snd (fst g)
               /\ a_reason a = snd g.
Proof.
  unfold award_all. revert w. induction gs as [|g gs IH]; intros w H; simpl in H.
  - left. exact H.
  - destruct (IH _ H) as [H1 | (g' & Hin & Hrest)].
    + destruct (award_row_origin _ _ _ _ _ H1) as [H2 | H2].
      * left. exact H2.
      * right. exists g. split; [left; reflexivity | exact H2].
    + right. exists g'. split; [right; exact Hin | exact Hrest].
Qed.

Lemma attempts_engine_rows (gs : list attempt) (w : World) :
  (forall g, In g gs ->
             (exists gm th, In th score_thresholds
                            /\ snd (fst g) = score_key gm th /\ snd g = score_reason gm th)
             \/ (exists gm pth, In pth play_thresholds
                                /\ snd (fst g) = plays_key gm pth
                                /\ snd g = plays_reason gm pth)) ->
  Forall engine_row (achievements w) ->
  Forall engine_row (achievements (award_all gs w)).
Proof.
  intros Hgs Hw. rewrite Forall_forall in *. intros a Ha.
  destruct (award_all_row_origin _ _ _ Ha) as [H | (g & Hin & _ & Hk & Hr)].
  - apply Hw, H.
  - unfold engine_row. rewrite Hk, Hr. apply Hgs, Hin.
Qed.

Lemma record_attempts_shape (user game : string) (score cnt : Z) (g : attempt) :
  In g (score_attempts user game score ++ play_attempts user game cnt) ->
  (exists gm th, In th score_thresholds
                 /\ snd (fst g) = score_key gm th /\ snd g = score_reason gm th)
  \/ (exists gm pth, In pth play_thresholds
                     /\ snd (fst g) = plays_key gm pth /\ snd g = plays_reason gm pth).
Proof.
  intros H. apply in_app_or in H. destruct H as [H|H].
  - apply Rescan.score_attempts_In in H. destruct H as (th & H1 & _ & ->).
    left. exists game, th. auto.
  - apply Rescan.play_attempts_In in H. destruct H as (pth & H1 & _ & ->).
    right. exists game, pth. auto.
Qed.

Lemma exec_engine_rows (w : World) (c : call) :
  Forall engine_row (achievements w) -> Forall engine_row (achievements (exec w c)).
Proof.
  intros H. destruct c as [n|u f|u r|g u s|]; cbn [exec].
  - unfold add_user_if_not_exists. destruct (existsb _ _); exact H.
  - exact H.
  - unfold accept_friend_request. simpl. destruct (existsb _ _); exact H.
  - rewrite Ledger.record_score_steps. apply attempts_engine_rows; [|exact H].
    intros a. apply record_attempts_shape.
  - rewrite Rescan.rescan_world. apply attempts_engine_rows; [|exact H].
    intros a Ha. rewrite Rescan.rescan_attempts_pairs in Ha.
    apply in_flat_map in Ha. destruct Ha as ([u g] & _ & Ha).
    apply (record_attempts_shape _ _ _ _ _ Ha).
Qed.

Lemma run_engine_rows (cs : list call) (w : World) :
  Forall engine_row (achievements w) -> Forall engine_row (achievements (run cs w)).
Proof.
  unfold run. revert w. induction cs as [|c cs IH]; intros w H; simpl.
  - exact H.
  - apply IH, exec_engine_rows, H.
Qed.

Lemma tier_of_engine_row (a : ach_row) :
  engine_row a ->
  In (_pretty_achievement_name (a_key a)) ["Pro"; "Hacker"; "Rookie"; "Expert"].
Proof.
  intros [(g & th & Hth & -> & _) | (g & pth & Hth & -> & _)].
  - unfold score_thresholds in Hth. simpl in Hth.
    destruct Hth as [<-|[<-|[]]].
    + change (score_key g 500) with (g ++ "_score_500")%string.
      rewrite name_score_500. simpl. auto.
    + change (score_key g 1000) with (g ++ "_score_1000")%string.
      rewrite name_score_1000. simpl. auto.
  - unfold play_thresholds in Hth. simpl in Hth.
    destruct Hth as [<-|[<-|[<-|[]]]].
    + change (plays_key g 5) with (g ++ "_plays_5")%string.
      rewrite name_plays_5. simpl. auto.
    + change (plays_key g 10) with (g ++ "_plays_10")%string.
      rewrite name_plays_10. simpl. auto.
    + change (plays_key g 25) with (g ++ "_plays_25")%string.
      rewrite name_plays_25. simpl. auto.
Qed.

Lemma listed_rows (u : string) (w : World) (row : string * string * timestamp) :
  In row (get_user_achievements u w) <->
  exists a, In a (achievements w) /\ a_user a = u
            /\ row = (a_key a, a_reason a, a_awarded_at a).
Proof.
  unfold get_user_achievements. rewrite in_map_iff. split.
  - intros (a & <- & Ha). apply SqlFacts.order_by_In, filter_In in Ha.
    destruct Ha as [Hin Hu]. apply String.eqb_eq in Hu. exists a. auto.
  - intros (a & Hin & Hu & ->). exists a. split; [reflexivity|].
    apply SqlFacts.order_by_In, filter_In. split; [exact Hin|].
    apply String.eqb_eq, Hu.
Qed.

Lemma keys_of_user_unique (u : string) (l : list ach_row) :
  NoDup (map (fun a => (a_user a, a_key a)) l) ->
  NoDup (map a_key (filter (fun a => a_user a =? u)%string l)).
Proof.
  induction l as [|a l IH]; simpl; intros H; [constructor|].
  apply NoDup_cons_iff in H. destruct H as [Hn Hl].
  destruct (String.eqb_spec (a_user a) u) as [E|E]; simpl; [|apply IH, Hl].
  constructor; [|apply IH, Hl].
  intros Hin. apply Hn. apply in_map_iff in Hin. destruct Hin as (b & Hk & Hb).
  apply filter_In in Hb. destruct Hb as [Hb Hu]. apply String.eqb_eq in Hu.
  apply in_map_iff. exists b. split; [|exact Hb]. congruence.
Qed.

End Launcher.

(** The launcher names every key the engine can write, whatever the game is
    called: score keys are "Pro" (500) and "Hacker" (1000), play keys are
    "Rookie" (5), "Pro" (10) and "Expert" (25). *)
Theorem engine_keys_have_tier_names :
  forall g : string,
    _pretty_achievement_name (score_key g 500) = "Pro"
    /\ _pretty_achievement_name (score_key g 1000) = "Hacker"
    /\ _pretty_achievement_name (plays_key g 5) = "Rookie"
    /\ _pretty_achievement_name (plays_key g 10) = "Pro"
    /\ _pretty_achievement_name (plays_key g 25) = "Expert".
Proof.
  intros g.
  change (score_key g 500) with (g ++ "_score_500")%string.
  change (score_key g 1000) with (g ++ "_score_1000")%string.
  change (plays_key g 5) with (g ++ "_plays_5")%string.
  change (plays_key g 10) with (g ++ "_plays_10")%string.
  change (plays_key g 25) with (g ++ "_plays_25")%string.
  repeat split.
  - apply Launcher.name_score_500.
  - apply Launcher.name_score_1000.
  - apply Launcher.name_plays_5.
  - apply Launcher.name_plays_10.
  - apply Launcher.name_plays_25.
Qed.

(** [get_user_achievements] lists exactly the keys the user holds, and in
    every store reached from the empty one it lists no key twice. *)
Theorem listed_achievements_are_the_held_ones :
  forall (u k : string) (w : World),
    (In k (map (fun row => fst (fst row)) (get_user_achievements u w))
     <-> has_achievement u k w = true)
    /\ (forall clock cs,
           NoDup (map (fun row : string * string * timestamp => fst (fst row))
                      (get_user_achievements u (run cs (empty_world clock))))).
Proof.
  intros u k w. split.
  - rewrite in_map_iff. unfold has_achievement. rewrite existsb_exists. split.
    + intros (row & <- & Hrow). apply Launcher.listed_rows in Hrow.
      destruct Hrow as (a & Hin & Hu & ->). exists a. split; [exact Hin|].
      apply Awards.holds_true. auto.
    + intros (a & Hin & Ha). apply Awards.holds_true in Ha. destruct Ha as [Hu Hk].
      exists (a_key a, a_reason a, a_awarded_at a). split; [exact Hk|].
      apply Launcher.listed_rows. exists a. auto.
  - intros clock cs. unfold get_user_achievements. rewrite map_map. cbn [fst].
    eapply Permutation_NoDup.
    + apply Permutation_map, Permutation_sym, SqlFacts.order_by_perm.
    + apply Launcher.keys_of_user_unique.
      apply (Reach.run_unique cs (empty_world clock)). constructor.
Qed.

(** "ann" holds and is shown "Snake_score_500". *)
Lemma listed_achievements_are_the_held_ones_witness :
  has_achievement "ann" "Snake_score_500"
    (record_score "Snake" "ann" 600 (empty_world sample_clock)) = true.
Proof.
  apply (listed_achievements_are_the_held_ones "ann" "Snake_score_500"
           (record_score "Snake" "ann" 600 (empty_world sample_clock))).
  vm_compute. left. reflexivity.
Defined.

(** From the ledger to the screen: in every store reached from the empty one
    each achievement [get_user_achievements] lists is shown under one of the
    four tier names, never under its raw key. *)
Theorem listed_achievements_get_tier_names :
  forall (clock : nat -> timestamp) (cs : list call) (u : string)
         (row : string * string * timestamp),
    In row (get_user_achievements u (run cs (empty_world clock))) ->
    In (_pretty_achievement_name (fst (fst row))) ["Pro"; "Hacker"; "Rookie"; "Expert"].
Proof.
  intros clock cs u row H. apply Launcher.listed_rows in H.
  destruct H as (a & Hin & _ & ->). cbn [fst].
  apply Launcher.tier_of_engine_row.
  assert (Hall : Forall engine_row (achievements (run cs (empty_world clock))))
    by (apply Launcher.run_engine_rows; constructor).
  rewrite Forall_forall in Hall. apply Hall, Hin.
Qed.

(** The "Snake_score_500" of "ann" is shown as "Pro". *)
Lemma listed_achievements_get_tier_names_witness :
  In (_pretty_achievement_name "Snake_score_500") ["Pro"; "Hacker"; "Rookie"; "Expert"].
Proof.
  apply (listed_achievements_get_tier_names sample_clock
           [RecordScore "Snake" "ann" 600] "ann"
           ("Snake_score_500", "Score >= 500 in Snake", sample_clock 1)).
  vm_compute. left. reflexivity.
Defined.

(** * The profile text *)

(** A user nobody has heard of gets the fallback profile: joined "unknown",
    total score 0, total plays 0 and "- None yet" for achievements; once
    registered, the only change is the join time, which is the clock reading
    of the registration. *)
Theorem profile_of_new_user :
  forall (u : string) (w : World),
    registered u w = false ->
    has_scores u w = false ->
    existsb (fun a => a_user a =? u)%string (achievements w) = false ->
    get_user_profile u w
    = Returns (String.concat nl
        [("Username: " ++ u)%string; "Joined: unknown"; "Total score: 0";
         "Total plays: 0"; (nl ++ "Achievements:")%string; "- None yet"])
    /\ get_user_profile u (add_user_if_not_exists u w)
       = Returns (String.concat nl
           [("Username: " ++ u)%string; ("Joined: " ++ utc w (ticks w))%string;
            "Total score: 0"; "Total plays: 0";
            (nl ++ "Achievements:")%string; "- None yet"]).
Proof.
  intros u w Hr Hs Ha.
  unfold registered in Hr. unfold has_scores in Hs.
  pose proof (Totals.no_match_filter _ _ Hr) as Er.
  pose proof (Totals.no_match_filter _ _ Hs) as Es.
  pose proof (Totals.no_match_filter _ _ Ha) as Ea.
  split.
  - unfold get_user_profile, get_user_overall_by_bests, get_user_achievements.
    rewrite Er, Es, Ea. reflexivity.
  - unfold add_user_if_not_exists. rewrite Hr.
    unfold get_user_profile, get_user_overall_by_bests, get_user_achievements.
    cbn [utcnow set_users users leaderboard achievements].
    rewrite filter_app, Er, Es, Ea. cbn [filter username].
    rewrite String.eqb_refl. reflexivity.
Qed.

(** "zed" on an empty store. *)
Lemma profile_of_new_user_witness :
  get_user_profile "zed" (empty_world sample_clock)
  = Returns (String.concat nl
      ["Username: zed"; "Joined: unknown"; "Total score: 0";
       "Total plays: 0"; (nl ++ "Achievements:")%string; "- None yet"]).
Proof.
  apply (profile_of_new_user "zed" (empty_world sample_clock)); reflexivity.
Defined.
